(** * RL-based recommendation system: evaluation notebook (testing.ipynb)

    A shallow embedding of the algorithmic part of the notebook: the ranking
    metrics [precision_at_k] and [recall_at_k], the dense re-indexing of item
    ids, the simulated environment [AmazonEnv] ([reset], [step]), the action
    selection of [DQNAgent] and the episode loop of [evaluate_agent].

    Conventions of the embedding.
    - Python integers are [Z]; lengths are [nat] and are injected into [Z]
      where the source compares or subtracts them.
    - Python floats are modelled by the exact rational they denote ([Q]);
      [hits / k] is the exact quotient.  The cast to a [float32] array made by
      [np.array(..., dtype=np.float32)] is modelled cell by cell: an integer
      or a float becomes [Num q], [None] becomes [NaN].
    - Python sets are [gset Z], dictionaries are [gmap]; a list slice is
      written out with Python's treatment of negative bounds.
    - A call either returns or raises: [outcome].
    - Random draws ([np.random.choice], [random.random], [random.choice]) are
      explicit arguments. *)

From Stdlib Require Import ZArith QArith Lia.
From stdpp Require Import base option list gmap fin_sets.

#[local] Set Warnings "-clear-no-such-hyp".
Local Open Scope Z_scope.

(** ** Python primitives used by the notebook *)

Section Slices.
Context {A : Type}.

(** [l[:k]]: a negative bound counts from the end and is clipped at 0. *)
Definition slice_to (l : list A) (k : Z) : list A :=
  if k <? 0 then take (Z.to_nat (Z.of_nat (length l) + k)) l
  else take (Z.to_nat k) l.

(** [l[i:]]: a negative bound counts from the end and is clipped at 0. *)
Definition slice_from (l : list A) (i : Z) : list A :=
  if i <? 0 then drop (Z.to_nat (Z.of_nat (length l) + i)) l
  else drop (Z.to_nat i) l.

(** [[x] * n]: the empty list when [n] is not positive. *)
Definition repeat_list (x : A) (n : Z) : list A := replicate (Z.to_nat n) x.
End Slices.

(** Exceptions the modelled code can raise, and the outcome of a call. *)
Inductive exn := ValueError | IndexError | RuntimeError.

Inductive outcome (A : Type) :=
  | Returns (a : A)
  | Raises (e : exn).
Arguments Returns {A} a.
Arguments Raises {A} e.

#[global] Instance outcome_ret : MRet outcome := fun A a => Returns a.
#[global] Instance outcome_bind : MBind outcome := fun A B k c =>
  match c with
  | Returns a => k a
  | Raises e => Raises e
  end.

(** ** Ranking metrics *)

Module Metrics.

(** [precision_at_k]: [hits] is the length of a list comprehension over
    [top_k], so a relevant item is counted once per position it occupies. *)
Definition precision_at_k (recommended relevant : list Z) (k : Z) : Q :=
  let top_k := slice_to recommended k in
  let relevant_set : gset Z := list_to_set relevant in
  let hits := length (filter (fun item => item ∈ relevant_set) top_k) in
  if 0 <? k then (inject_Z (Z.of_nat hits) / inject_Z k)%Q else 0%Q.

(** [recall_at_k]: [hits] is the size of a set intersection; the
    denominator is [min(len(relevant), k)]. *)
Definition recall_at_k (recommended relevant : list Z) (k : Z) : Q :=
  let top_k := slice_to recommended k in
  let relevant_set : gset Z := list_to_set relevant in
  let hits := size ((list_to_set top_k : gset Z) ∩ relevant_set) in
  let total_relevant_at_k := Z.min (Z.of_nat (length relevant)) k in
  if 0 <? total_relevant_at_k
  then (inject_Z (Z.of_nat hits) / inject_Z total_relevant_at_k)%Q
  else 0%Q.

(** The two ways of counting hits in a list [l] of recommended items.
    [distinct_count]: how many different items of [l] are relevant, the
    cardinality of the intersection of [l] and [relevant] taken as sets.
    [position_count]: how many positions of [l] hold a relevant item. *)
Definition distinct_count (relevant l : list Z) : nat :=
  length (remove_dups (filter (fun x => x ∈ relevant) l)).

Definition position_count (relevant l : list Z) : nat :=
  length (filter (fun x => x ∈ relevant) l).

(** The specification's [recommended[:k]]: the first [k] recommended items
    (none when [k <= 0]). *)
Definition first_k (recommended : list Z) (k : Z) : list Z :=
  take (Z.to_nat k) recommended.

End Metrics.

(** ** Dense re-indexing of the item ids *)

Module Reindex.

(** [Series.unique()]: the distinct values, in order of first appearance. *)
Fixpoint unique_from (seen : gset Z) (l : list Z) : list Z :=
  match l with
  | [] => []
  | x :: l' =>
      if decide (x ∈ seen) then unique_from seen l'
      else x :: unique_from ({[x]} ∪ seen) l'
  end.

Definition unique (l : list Z) : list Z := unique_from ∅ l.

(** [enumerate(l)]: pairs (position, value), counting from 0. *)
Fixpoint enumerate_from (n : Z) (l : list Z) : list (Z * Z) :=
  match l with
  | [] => []
  | x :: l' => (n, x) :: enumerate_from (n + 1) l'
  end.

Definition enumerate (l : list Z) : list (Z * Z) := enumerate_from 0 l.

(** [{old_idx: new_idx for new_idx, old_idx in enumerate(all_items)}]:
    entries are inserted from left to right, a later one overwriting. *)
Definition dict_from (m0 : gmap Z Z) (l : list (Z * Z)) : gmap Z Z :=
  foldl (fun m '(new_idx, old_idx) => <[old_idx := new_idx]> m) m0 l.

Definition dict_of_enumeration (l : list (Z * Z)) : gmap Z Z :=
  dict_from ∅ l.

(** [pd.concat([df_train['item_idx'], df_test['item_idx']]).unique()] *)
Definition all_items (train test : list Z) : list Z := unique (train ++ test).

Definition item_mapping (train test : list Z) : gmap Z Z :=
  dict_of_enumeration (enumerate (all_items train test)).

(** [Series.map(dict)]: a value that is not a key becomes NaN ([None]). *)
Definition series_map (m : gmap Z Z) (col : list Z) : list (option Z) :=
  (fun x => m !! x) <$> col.

(** [Series.nunique()]: the number of distinct values, NaN left out. *)
Definition nunique (col : list (option Z)) : Z :=
  Z.of_nat (length (unique (omap id col))).

(** [num_items = df_train['item_idx'].nunique()], taken after the train
    column has been re-indexed. *)
Definition num_items (train test : list Z) : Z :=
  nunique (series_map (item_mapping train test) train).

End Reindex.

(** ** The simulated environment *)

(** A cell of a [float32] array. *)
Inductive cell :=
  | Num (q : Q)
  | NaN.

Definition cell_of_int (z : Z) : cell := Num (inject_Z z).
Definition cell_of_user (u : option Z) : cell :=
  match u with
  | Some z => cell_of_int z
  | None => NaN
  end.

(** [np.random.choice(a)] and [random.choice(seq)]: the element at a
    uniformly drawn index, here [draw] reduced modulo the length. *)
Definition random_choice {A} (l : list A) (draw : nat) (e : exn) : outcome A :=
  match l !! (draw `mod` length l)%nat with
  | Some x => Returns x
  | None => Raises e
  end.

Module Env.

(** The fields of [AmazonEnv] fixed by [__init__]. *)
Record AmazonEnv := {
  df_user_idx : list Z;                 (* the column df['user_idx'] *)
  user_interactions : gmap Z (gset Z);
  user_ratings : gmap (Z * Z) Q;
  num_items : Z;
  N : Z;
  M : Z
}.

(** The fields [reset] and [step] assign. *)
Record EnvState := {
  current_user : option Z;
  history : list (Z * Q)
}.

Definition initial_state : EnvState :=
  {| current_user := None; history := [] |}.

(** The shape declared for [observation_space] in [__init__]. *)
Definition observation_space_shape (env : AmazonEnv) : Z := 1 + 2 * N env.

(** The reward given for a pair without a rating. *)
Definition penalty : Q := (- (1 # 10))%Q.

(** [key in self.user_ratings] and [self.user_ratings[key]] for
    [key = (self.current_user, action)]; no key has [None] as its user. *)
Definition lookup_rating (env : AmazonEnv) (user : option Z) (action : Z)
  : option Q :=
  match user with
  | Some u => user_ratings env !! (u, action)
  | None => None
  end.

Definition reset (env : AmazonEnv) (draw : nat)
  : outcome (EnvState * list cell) :=
  user ← random_choice (Reindex.unique (df_user_idx env)) draw ValueError;
  let st := {| current_user := Some user; history := [] |} in
  let state :=
    [cell_of_int user] ++ (cell_of_int <$> repeat_list 0 (N env))
                       ++ (cell_of_int <$> repeat_list 0 (N env)) in
  mret (st, state).

Definition step (env : AmazonEnv) (st : EnvState) (action : Z)
  : outcome (EnvState * (list cell * Q * bool)) :=
  let reward :=
    match lookup_rating env (current_user st) action with
    | Some r => r
    | None => penalty
    end in
  let history' := history st ++ [(action, reward)] in
  let len := Z.of_nat (length history') in
  let state_items :=
    if len <? N env
    then repeat_list 0 (N env - len) ++ (fst <$> history')
    else fst <$> slice_from history' (- N env) in
  let state_ratings :=
    if len <? N env
    then repeat_list 0%Q (N env - len) ++ (snd <$> history')
    else snd <$> slice_from history' (- N env) in
  let state :=
    [cell_of_user (current_user st)] ++ (cell_of_int <$> state_items)
                                     ++ (Num <$> state_ratings) in
  let done := M env <=? len in
  mret ({| current_user := current_user st; history := history' |},
        (state, reward, done)).

(** The reward and the history [step] computes, for the statements. *)
Definition step_reward (env : AmazonEnv) (st : EnvState) (action : Z) : Q :=
  default penalty (lookup_rating env (current_user st) action).

Definition step_history (env : AmazonEnv) (st : EnvState) (action : Z)
  : list (Z * Q) :=
  history st ++ [(action, step_reward env st action)].


(** The states a caller can bring the environment into after [reset],
    each with the observation returned by the call that produced it. *)
Inductive reachable (env : AmazonEnv) : EnvState -> list cell -> Prop :=
  | reachable_reset draw st state :
      reset env draw = Returns (st, state) -> reachable env st state
  | reachable_step st state action st' state' reward done :
      reachable env st state ->
      step env st action = Returns (st', (state', reward, done)) ->
      reachable env st' state'.

(** The calls of [step] of one episode in which the caller stops at the
    first [done]: the actions played from [st0], the state reached and the
    flag returned by the last call. *)
Inductive episode_trace (env : AmazonEnv) (st0 : EnvState)
  : list Z -> EnvState -> bool -> Prop :=
  | trace_first action st state reward done :
      step env st0 action = Returns (st, (state, reward, done)) ->
      episode_trace env st0 [action] st done
  | trace_next actions st action st' state reward done :
      episode_trace env st0 actions st false ->
      step env st action = Returns (st', (state, reward, done)) ->
      episode_trace env st0 (actions ++ [action]) st' done.

(** The observation in the words of the specification: the user id, then
    the item ids of the most recent [min(n, len(h))] entries of the history
    [h] left-padded with zeros to [n] slots, then their rewards padded
    alike. *)
Definition window_observation (n : nat) (user : Z) (h : list (Z * Q))
  : list cell :=
  let w := (n `min` length h)%nat in
  let recent := drop (length h - w) h in
  [cell_of_int user]
    ++ (cell_of_int <$> (replicate (n - w) 0 ++ (fst <$> recent)))
    ++ (Num <$> (replicate (n - w) 0%Q ++ (snd <$> recent))).

End Env.

(** ** The agent and the episode loop *)

Module Agent.
Import Env.

(** The fields of [DQNAgent].  The trained network is an opaque scorer
    from a state vector to one score per item. *)
Record DQNAgent := {
  env : AmazonEnv;
  num_items : Z;
  epsilon : Q;
  policy_net : list cell -> list Q
}.

(** The two draws one call of [select_action] may consume:
    [random.random()] and the index behind [random.choice]. *)
Record draws := {
  uniform : Q;
  pick : nat
}.

(** [int(x)] on a float: truncation towards zero; NaN raises. *)
Definition int_of_cell (c : cell) : outcome Z :=
  match c with
  | Num q => Returns (Z.quot (Qnum q) (Z.pos (Qden q)))
  | NaN => Raises ValueError
  end.

Definition Qlt_bool (x y : Q) : bool := negb (Qle_bool y x).

(** [q_values.max()]; an empty tensor raises. *)
Fixpoint max_from (best : Q) (l : list Q) : Q :=
  match l with
  | [] => best
  | x :: l' => max_from (if Qlt_bool best x then x else best) l'
  end.

Definition tensor_max (l : list Q) : outcome Q :=
  match l with
  | [] => Raises RuntimeError
  | x :: l' => Returns (max_from x l')
  end.

(** [q_values.argmax()]: the index of the first maximal value. *)
Fixpoint argmax_from (best_i : Z) (best : Q) (i : Z) (l : list Q) : Z :=
  match l with
  | [] => best_i
  | x :: l' =>
      if Qlt_bool best x then argmax_from i x (i + 1) l'
      else argmax_from best_i best (i + 1) l'
  end.

Definition argmax (l : list Q) : outcome Z :=
  match l with
  | [] => Raises RuntimeError
  | x :: l' => Returns (argmax_from 0 x 1 l')
  end.

(** [select_action]; the agent is threaded through the call so that what
    the call does to its fields is part of the result. *)
Definition select_action (agent : DQNAgent) (state : list cell) (d : draws)
  : outcome (Z * DQNAgent) :=
  head ← from_option Returns (Raises IndexError) (state !! 0%nat);
  user_idx ← int_of_cell head;
  let user_items := default ∅ (user_interactions (env agent) !! user_idx) in
  let q_values := policy_net agent state in
  max_q ← tensor_max q_values;
  if bool_decide (user_items ≠ ∅) && Qlt_bool (uniform d) (3 # 4)
  then
    action ← random_choice (elements user_items) (pick d) IndexError;
    mret (action, agent)
  else
    action ← argmax q_values;
    mret (action, agent).

(** What one episode of [evaluate_agent] hands to the metrics. *)
Record episode := {
  final_state : EnvState;
  last_observation : list cell;
  recommended_items : list Z;
  total_reward : Q
}.

(** The loop [while not done] of [evaluate_agent]; [rng i] gives the draws
    of the [i]-th call of [select_action].  [None]: out of fuel. *)
Fixpoint episode_loop (fuel : nat) (e : AmazonEnv) (agent : DQNAgent)
    (rng : nat -> draws) (st : EnvState) (state : list cell)
    (recommended : list Z) (total : Q) : option (outcome episode) :=
  match fuel with
  | O => None
  | S fuel' =>
      match select_action agent state (rng (length recommended)) with
      | Raises x => Some (Raises x)
      | Returns (action, agent') =>
          match step e st action with
          | Raises x => Some (Raises x)
          | Returns (st', (next_state, reward, done)) =>
              let recommended' := recommended ++ [action] in
              let total' := (total + reward)%Q in
              if done
              then Some (Returns {| final_state := st';
                                    last_observation := next_state;
                                    recommended_items := recommended';
                                    total_reward := total' |})
              else episode_loop fuel' e agent' rng st' next_state
                                recommended' total'
          end
      end
  end.

(** One iteration of [for episode in range(num_test_episodes)] up to the
    end of the inner loop. *)
Definition run_episode (fuel : nat) (e : AmazonEnv) (agent : DQNAgent)
    (user_draw : nat) (rng : nat -> draws) : option (outcome episode) :=
  match reset e user_draw with
  | Raises x => Some (Raises x)
  | Returns (st, state) => episode_loop fuel e agent rng st state [] 0%Q
  end.

(** The metrics of one episode for one [k]. *)
Definition episode_metrics (e : AmazonEnv) (ep : episode) (k : Z)
  : outcome (Q * Q) :=
  head ← from_option Returns (Raises IndexError) (last_observation ep !! 0%nat);
  user_idx ← int_of_cell head;
  let relevant_items := default ∅ (user_interactions e !! user_idx) in
  let relevant := elements relevant_items in
  mret (Metrics.precision_at_k (recommended_items ep) relevant k,
        Metrics.recall_at_k (recommended_items ep) relevant k).

(** The item the specification asks for when the policy exploits: an
    index of a maximal score, the lowest one among ties. *)
Definition first_maximum (scores : list Q) (a : Z) : Prop :=
  0 <= a /\
  exists v, scores !! Z.to_nat a = Some v
    /\ forall (j : nat) w, scores !! j = Some w ->
         (w <= v)%Q /\ ((j < Z.to_nat a)%nat -> (w < v)%Q).

End Agent.

(** ** Sample configurations *)

Module Sample.
Import Env Agent.

Definition ratings : gmap (Z * Z) Q :=
  {[ (1, 0) := 0%Q; (1, 2) := 5%Q; (2, 1) := 3%Q ]}.

Definition interactions : gmap Z (gset Z) :=
  {[ 1 := {[ 0; 2 ]}; 2 := {[ 1 ]} ]}.

Definition make_env (n m : Z) : AmazonEnv :=
  {| df_user_idx := [1; 1; 2];
     user_interactions := interactions;
     user_ratings := ratings;
     Env.num_items := 3;
     N := n;
     M := m |}.

(** The configuration of the notebook, [N=5, M=10]. *)
Definition env_5_10 : AmazonEnv := make_env 5 10.
(** An empty history window, [N=0]. *)
Definition env_0_10 : AmazonEnv := make_env 0 10.
(** An episode length of zero, [M=0]. *)
Definition env_5_0 : AmazonEnv := make_env 5 0.
(** A short episode, [M=2]. *)
Definition env_5_2 : AmazonEnv := make_env 5 2.

(** The state after [reset] has drawn user 1. *)
Definition started : EnvState :=
  {| current_user := Some 1; history := [] |}.

(** A scorer that prefers item 1, with a tie between items 1 and 2. *)
Definition agent_of (e : AmazonEnv) : DQNAgent :=
  {| env := e;
     Agent.num_items := 3;
     epsilon := 0%Q;
     policy_net := fun _ => [(1 # 2)%Q; 2%Q; 2%Q] |}.

Definition explore : draws := {| uniform := (1 # 2)%Q; pick := 1%nat |}.
Definition exploit : draws := {| uniform := (9 # 10)%Q; pick := 1%nat |}.

End Sample.

(** ** Preparing the store, the declared spaces and the evaluation loop *)

Module Store.
Import Env.

(** A row of [df_test] once its item column is re-indexed: the columns
    [user_idx], [item_idx] and [overall]. *)
Record row := {
  user_idx : Z;
  item_idx : Z;
  overall : Q
}.

(** [df.groupby('user_idx')['item_idx'].apply(set).to_dict()]: one key per
    distinct user, with the set of the items of the rows of that user. *)
Definition group_items (rows : list row) : gmap Z (gset Z) :=
  list_to_map
    ((fun u => (u, list_to_set
                     (item_idx <$> filter (fun r => user_idx r = u) rows)))
       <$> Reindex.unique (user_idx <$> rows)).

(** [df.set_index(['user_idx', 'item_idx'])['overall'].to_dict()]: the
    rows are read in order, a later row with the same key overwriting. *)
Definition ratings_dict (rows : list row) : gmap (Z * Z) Q :=
  foldl (fun m r => <[(user_idx r, item_idx r) := overall r]> m) ∅ rows.

(** [AmazonEnv(df_test, user_interactions_test, user_ratings_test, N, M)]
    with the two dictionaries built from the rows of [df_test]. *)
Definition env_of_rows (rows : list row) (items n m : Z) : AmazonEnv :=
  {| df_user_idx := user_idx <$> rows;
     user_interactions := group_items rows;
     user_ratings := ratings_dict rows;
     Env.num_items := items;
     N := n;
     M := m |}.

End Store.

Module Space.
Import Env.

(** [self.num_users = df['user_idx'].nunique()] *)
Definition num_users (env : AmazonEnv) : Z :=
  Z.of_nat (length (Reindex.unique (df_user_idx env))).

(** The bounds of [observation_space]: [low=0] for every cell and
    [high = [num_users - 1] + [num_items - 1] * N + [5] * N]. *)
Definition observation_low : Q := 0%Q.

Definition observation_high (env : AmazonEnv) : list Q :=
  inject_Z <$> ([num_users env - 1]
                  ++ repeat_list (num_items env - 1) (N env)
                  ++ repeat_list 5 (N env)).

(** A vector lies in the box when it has the length of [high] and every
    cell is a number between [low] and the bound of its position. *)
Definition cell_within (c : cell) (hi : Q) : Prop :=
  match c with
  | Num q => (observation_low <= q)%Q /\ (q <= hi)%Q
  | NaN => False
  end.

Definition within_bounds (env : AmazonEnv) (state : list cell) : Prop :=
  Forall2 cell_within state (observation_high env).

End Space.

Module Evaluate.
Import Env Agent.

(** [np.mean] of a list of floats; the mean of no value is NaN. *)
Definition Qsum (l : list Q) : Q := foldl Qplus 0%Q l.

Definition np_mean (l : list Q) : cell :=
  match l with
  | [] => NaN
  | _ => Num (Qsum l / inject_Z (Z.of_nat (length l)))%Q
  end.

(** [{k: [] for k in k_values}] *)
Definition empty_scores (k_values : list Z) : gmap Z (list Q) :=
  foldl (fun m k => <[k := []]> m) ∅ k_values.

(** [scores[k].append(v)]; the keys are those of [k_values], over which the
    appending loop runs. *)
Definition append_score (m : gmap Z (list Q)) (k : Z) (v : Q)
  : gmap Z (list Q) :=
  alter (fun l => l ++ [v]) k m.

(** The accumulators of [evaluate_agent]. *)
Record scores := {
  precision_scores : gmap Z (list Q);
  recall_scores : gmap Z (list Q);
  total_rewards : list Q
}.

(** The loop [for k in k_values] after an episode. *)
Definition record_metrics (recommended relevant : list Z) (k_values : list Z)
    (acc : scores) : scores :=
  foldl (fun a k =>
           {| precision_scores :=
                append_score (precision_scores a) k
                  (Metrics.precision_at_k recommended relevant k);
              recall_scores :=
                append_score (recall_scores a) k
                  (Metrics.recall_at_k recommended relevant k);
              total_rewards := total_rewards a |})
        acc k_values.

(** The loop [for episode in range(num_test_episodes)]: each element of
    [episodes] holds the draws of one episode. *)
Fixpoint evaluate_episodes (fuel : nat) (e : AmazonEnv) (agent : DQNAgent)
    (episodes : list (nat * (nat -> draws))) (k_values : list Z)
    (acc : scores) : option (outcome scores) :=
  match episodes with
  | [] => Some (Returns acc)
  | (user_draw, rng) :: rest =>
      match run_episode fuel e agent user_draw rng with
      | None => None
      | Some (Raises x) => Some (Raises x)
      | Some (Returns ep) =>
          match from_option Returns (Raises IndexError)
                  (last_observation ep !! 0%nat) ≫= int_of_cell with
          | Raises x => Some (Raises x)
          | Returns user => 
              let relevant_items :=
                default ∅ (user_interactions e !! user) in
              let acc' :=
                record_metrics (recommended_items ep)
                  (elements relevant_items) k_values acc in
              evaluate_episodes fuel e agent rest k_values
                {| precision_scores := precision_scores acc';
                   recall_scores := recall_scores acc';
                   total_rewards :=
                     total_rewards acc' ++ [total_reward ep] |}
          end
      end
  end.

(** What [evaluate_agent] returns: the averages per [k] and the average
    total reward. *)
Record report := {
  avg_precision : gmap Z cell;
  avg_recall : gmap Z cell;
  avg_reward : cell
}.

Definition evaluate_agent (fuel : nat) (e : AmazonEnv) (agent : DQNAgent)
    (num_test_episodes : Z) (draws_of : nat -> nat * (nat -> draws))
    (k_values : list Z) : option (outcome report) :=
  let start := {| precision_scores := empty_scores k_values;
                  recall_scores := empty_scores k_values;
                  total_rewards := [] |} in
  match evaluate_episodes fuel e agent
          (draws_of <$> seq 0 (Z.to_nat num_test_episodes)) k_values start with
  | None => None
  | Some (Raises x) => Some (Raises x)
  | Some (Returns acc) =>
      Some (Returns {| avg_precision := np_mean <$> precision_scores acc;
                       avg_recall := np_mean <$> recall_scores acc;
                       avg_reward := np_mean (total_rewards acc) |})
  end.

(** A value of the closed interval [0, 1]. *)
Definition in_unit (q : Q) : Prop := (0 <= q)%Q /\ (q <= 1)%Q.

(** What the loop over the episodes keeps true of a dictionary of scores
    after [j] episodes: its keys are those of [k_values], each list holds
    values of [0, 1] only, and a list is empty exactly before the first
    episode. *)
Definition scores_invariant (k_values : list Z) (m : gmap Z (list Q))
    (j : nat) : Prop :=
  forall k,
    (k ∈ k_values ->
       exists l, m !! k = Some l /\ Forall in_unit l
                 /\ (j = 0%nat -> l = []) /\ ((0 < j)%nat -> l <> []))
    /\ (k ∉ k_values -> m !! k = None).

End Evaluate.

Module Fixture.
Import Store.

(** Three rows of a test split; the last one rates the pair (1, 2) again. *)
Definition rows : list row :=
  [ {| user_idx := 1; item_idx := 2; overall := 4%Q |};
    {| user_idx := 2; item_idx := 0; overall := 3%Q |};
    {| user_idx := 1; item_idx := 2; overall := 5%Q |} ].

Definition env_rows : Env.AmazonEnv := env_of_rows rows 3 5 2.

End Fixture.

(** * Properties *)

(** ** Slices *)

Section SliceFacts.
Context {A : Type}.
Implicit Types l : list A.

Lemma slice_to_nonneg l k : 0 <= k -> slice_to l k = take (Z.to_nat k) l.
Proof. intros Hk. unfold slice_to. destruct (Z.ltb_spec k 0); [lia | done]. Qed.

Lemma slice_to_length_le l k :
  0 <= k -> Z.of_nat (length (slice_to l k)) <= k.
Proof. intros Hk. rewrite slice_to_nonneg, length_take by done. lia. Qed.

Lemma slice_from_neg l n :
  0 < n -> slice_from l (- n) = drop (length l - Z.to_nat n) l.
Proof.
  intros Hn. unfold slice_from. destruct (Z.ltb_spec (- n) 0); [|lia].
  f_equal. lia.
Qed.

Lemma slice_from_neg_zero l : slice_from l (- 0) = l.
Proof. done. Qed.
End SliceFacts.

(** ** Ranking metrics *)

Section MetricsFacts.
Import Metrics.
Implicit Types (recommended relevant l : list Z) (k : Z).

(** A quotient of integers [0 <= a <= b], [0 < b], lies in [[0, 1]]. *)
Lemma ratio_in_unit_interval (a b : Z) :
  0 <= a <= b -> 0 < b ->
  (0 <= inject_Z a / inject_Z b /\ inject_Z a / inject_Z b <= 1)%Q.
Proof.
  intros [Ha Hab] Hb.
  assert (Hpos : (0 < inject_Z b)%Q) by (unfold Qlt; simpl; lia).
  split.
  - apply Qle_shift_div_l; [done|]. unfold Qle; simpl; lia.
  - apply Qle_shift_div_r; [done|]. unfold Qle; simpl; lia.
Qed.

Lemma first_k_slice recommended k :
  0 <= k -> slice_to recommended k = first_k recommended k.
Proof. apply slice_to_nonneg. Qed.

Lemma first_k_nonpos recommended k : k <= 0 -> first_k recommended k = [].
Proof.
  intros Hk. unfold first_k. by replace (Z.to_nat k) with 0%nat by lia.
Qed.

(** The list comprehension of [precision_at_k] tests membership in
    [set(relevant)]; that is membership in [relevant]. *)
Lemma filter_relevant_set relevant l :
  filter (fun item => item ∈ (list_to_set relevant : gset Z)) l
  = filter (fun x => x ∈ relevant) l.
Proof.
  induction l as [|x l IH]; [done|].
  rewrite !filter_cons, IH.
  destruct (decide (x ∈ (list_to_set relevant : gset Z))) as [Hin|Hin];
    destruct (decide (x ∈ relevant)) as [Hin'|Hin']; try done;
    rewrite elem_of_list_to_set in Hin; contradiction.
Qed.

(** The size of [set(top_k) & relevant_set], counted on lists. *)
Lemma size_intersection_distinct relevant l :
  size ((list_to_set l : gset Z) ∩ list_to_set relevant)
  = distinct_count relevant l.
Proof.
  unfold distinct_count.
  rewrite <- (size_list_to_set (C := gset Z))
    by apply NoDup_remove_dups.
  f_equal. apply set_eq. intros x.
  rewrite elem_of_intersection, !elem_of_list_to_set,
    elem_of_remove_dups, list_elem_of_filter.
  tauto.
Qed.

Lemma remove_dups_length_le l : (length (remove_dups l) <= length l)%nat.
Proof.
  induction l as [|x l IH]; simpl; [done|].
  destruct (decide_rel elem_of x l); simpl; lia.
Qed.

Lemma remove_dups_NoDup l : NoDup l -> remove_dups l = l.
Proof.
  induction 1 as [|x l Hx Hl IH]; simpl; [done|].
  destruct (decide_rel elem_of x l); [done|]. by rewrite IH.
Qed.

Lemma size_list_to_set_le l :
  (size (list_to_set l : gset Z) <= length l)%nat.
Proof.
  assert (Heq : (list_to_set l : gset Z) = list_to_set (remove_dups l)).
  { apply set_eq. intros x.
    by rewrite !elem_of_list_to_set, elem_of_remove_dups. }
  rewrite Heq, size_list_to_set by apply NoDup_remove_dups.
  apply remove_dups_length_le.
Qed.

Lemma distinct_count_le_position_count relevant l :
  (distinct_count relevant l <= position_count relevant l)%nat.
Proof. apply remove_dups_length_le. Qed.

(** Without a repeated item in [l], both counts agree. *)
Lemma distinct_count_NoDup relevant l :
  NoDup l -> distinct_count relevant l = position_count relevant l.
Proof.
  intros Hnd. unfold distinct_count, position_count.
  by rewrite remove_dups_NoDup by (by apply NoDup_filter).
Qed.

Lemma position_count_le_length relevant l :
  (position_count relevant l <= length l)%nat.
Proof. apply length_filter. Qed.

Lemma distinct_count_le_relevant relevant l :
  (distinct_count relevant l <= length relevant)%nat.
Proof.
  rewrite <- size_intersection_distinct.
  etrans; [apply subseteq_size, intersection_subseteq_r|].
  apply size_list_to_set_le.
Qed.

Lemma first_k_length_le recommended k :
  0 <= k -> Z.of_nat (length (first_k recommended k)) <= k.
Proof. intros Hk. unfold first_k. rewrite length_take. lia. Qed.

(** [precision_at_k] and [recall_at_k] in terms of the two counts. *)
Lemma precision_at_k_unfold recommended relevant k :
  precision_at_k recommended relevant k
  = if 0 <? k
    then (inject_Z (Z.of_nat (position_count relevant (first_k recommended k)))
          / inject_Z k)%Q
    else 0%Q.
Proof.
  unfold precision_at_k. destruct (Z.ltb_spec 0 k) as [Hk|Hk]; [|done].
  by rewrite filter_relevant_set, first_k_slice by lia.
Qed.

Lemma recall_at_k_unfold recommended relevant k :
  recall_at_k recommended relevant k
  = if 0 <? Z.min (Z.of_nat (length relevant)) k
    then (inject_Z (Z.of_nat (distinct_count relevant (first_k recommended k)))
          / inject_Z (Z.min (Z.of_nat (length relevant)) k))%Q
    else 0%Q.
Proof.
  unfold recall_at_k.
  destruct (Z.ltb_spec 0 (Z.min (Z.of_nat (length relevant)) k)) as [Hk|Hk];
    [|done].
  by rewrite size_intersection_distinct, first_k_slice by lia.
Qed.

End MetricsFacts.

Section MetricsTheorems.
Import Metrics.
Implicit Types (recommended relevant : list Z) (k : Z).

(** Claim C1.  For every list [recommended], every collection [relevant]
    and every integer [k], with [d = min(|relevant|, k)]: when [d] is not
    zero [recall_at_k] equals the number of distinct relevant items among
    the first [k] recommended ones divided by [d] (the very same fraction
    when [d > 0]); it is [0] when [d = 0]; it is [0] for an empty
    [relevant] and [k > 0]; and it is [0] for every [k <= 0]. *)
Theorem recall_at_k_formula recommended relevant k :
  let d := Z.min (Z.of_nat (length relevant)) k in
  let hits := Z.of_nat (distinct_count relevant (first_k recommended k)) in
  (d <> 0 ->
     (recall_at_k recommended relevant k == inject_Z hits / inject_Z d)%Q)
  /\ (0 < d ->
     recall_at_k recommended relevant k = (inject_Z hits / inject_Z d)%Q)
  /\ (d = 0 -> recall_at_k recommended relevant k = 0%Q)
  /\ (0 < k -> recall_at_k recommended [] k = 0%Q)
  /\ (k <= 0 -> recall_at_k recommended relevant k = 0%Q).
Proof.
  intros d hits. subst d hits. rewrite !recall_at_k_unfold.
  repeat split.
  - intros Hd.
    destruct (Z.ltb_spec 0 (Z.min (Z.of_nat (length relevant)) k)) as [Hlt|Hge];
      [reflexivity|].
    rewrite first_k_nonpos by lia.
    change (distinct_count relevant []) with 0%nat.
    unfold Qdiv. by rewrite Qmult_0_l.
  - intros Hd.
    destruct (Z.ltb_spec 0 (Z.min (Z.of_nat (length relevant)) k));
      [done | lia].
  - intros Hd. rewrite Hd. done.
  - intros Hk. change (length (@nil Z)) with 0%nat.
    destruct (Z.ltb_spec 0 (Z.min (Z.of_nat 0) k)); [lia | done].
  - intros Hk.
    destruct (Z.ltb_spec 0 (Z.min (Z.of_nat (length relevant)) k));
      [lia | done].
Qed.

Lemma recall_at_k_formula_witness :
  recall_at_k [1; 2; 2; 3] [2; 3; 9] 4 = (2 # 3)%Q
  /\ recall_at_k [1; 2; 3] [4] 0 = 0%Q
  /\ recall_at_k [1; 2; 3] [] 3 = 0%Q
  /\ recall_at_k [1; 2; 3] [1] (-1) = 0%Q.
Proof.
  pose proof (recall_at_k_formula [1; 2; 2; 3] [2; 3; 9] 4) as H1.
  pose proof (recall_at_k_formula [1; 2; 3] [4] 0) as H2.
  pose proof (recall_at_k_formula [1; 2; 3] [] 3) as H3.
  pose proof (recall_at_k_formula [1; 2; 3] [1] (-1)) as H4.
  simpl in H1, H2, H3, H4.
  destruct H1 as (_ & H1 & _), H2 as (_ & _ & H2 & _),
    H3 as (_ & _ & _ & H3 & _), H4 as (_ & _ & _ & _ & H4).
  split; [|split; [|split]].
  - rewrite H1 by lia. reflexivity.
  - apply H2. reflexivity.
  - apply H3. lia.
  - apply H4. lia.
Defined.

(** Claim C2, as stated, fails: with an item recommended twice,
    [precision_at_k] counts it twice, while the set intersection has one
    element. *)
Lemma precision_at_k_counts_repeats :
  ~ Qeq (precision_at_k [1; 1] [1] 2)
        (Qdiv (inject_Z (Z.of_nat (distinct_count [1] (first_k [1; 1] 2))))
              (inject_Z 2)).
Proof. vm_compute. discriminate. Qed.

(** Claim C2, amended.  For every [recommended], [relevant] and [k]:
    for [k > 0], [precision_at_k] is the number of positions among the
    first [k] recommended items that hold a relevant item (an item
    recommended several times counts each time) divided by [k]; for
    [k <= 0] it is [0]; and when the first [k] recommended items are
    pairwise distinct, the numerator is the number of distinct relevant
    items among them. *)
Theorem precision_at_k_formula recommended relevant k :
  precision_at_k recommended relevant k
  = (if 0 <? k
     then (inject_Z (Z.of_nat (position_count relevant (first_k recommended k)))
           / inject_Z k)%Q
     else 0%Q)
  /\ (k <= 0 -> precision_at_k recommended relevant k = 0%Q)
  /\ (NoDup (first_k recommended k) ->
      position_count relevant (first_k recommended k)
      = distinct_count relevant (first_k recommended k)).
Proof.
  rewrite precision_at_k_unfold. split; [done|]. split.
  - intros Hk. destruct (Z.ltb_spec 0 k); [lia | done].
  - intros Hnd. symmetry. by apply distinct_count_NoDup.
Qed.

Lemma precision_at_k_formula_witness :
  precision_at_k [4; 7; 7] [7] 0 = 0%Q
  /\ position_count [7] (first_k [4; 7; 7] 2)
     = distinct_count [7] (first_k [4; 7; 7] 2).
Proof.
  split.
  - apply (precision_at_k_formula [4; 7; 7] [7] 0). lia.
  - apply (precision_at_k_formula [4; 7; 7] [7] 2).
    apply (bool_decide_unpack _). by vm_compute.
Defined.

(** Claim C9.  For every [recommended], [relevant] and [k > 0], both
    [precision_at_k] and [recall_at_k] lie in the closed interval [0, 1]. *)
Theorem metrics_in_unit_interval recommended relevant k :
  0 < k ->
  (0 <= precision_at_k recommended relevant k
   /\ precision_at_k recommended relevant k <= 1
   /\ 0 <= recall_at_k recommended relevant k
   /\ recall_at_k recommended relevant k <= 1)%Q.
Proof.
  intros Hk.
  rewrite precision_at_k_unfold, recall_at_k_unfold.
  destruct (Z.ltb_spec 0 k) as [_|?]; [|lia].
  pose proof (position_count_le_length relevant (first_k recommended k)).
  pose proof (distinct_count_le_position_count relevant (first_k recommended k)).
  pose proof (distinct_count_le_relevant relevant (first_k recommended k)).
  pose proof (first_k_length_le recommended k ltac:(lia)).
  destruct (ratio_in_unit_interval
              (Z.of_nat (position_count relevant (first_k recommended k))) k)
    as [Hp0 Hp1]; [lia|lia|].
  split; [done|]. split; [done|].
  destruct (Z.ltb_spec 0 (Z.min (Z.of_nat (length relevant)) k)) as [Hd|Hd].
  - apply ratio_in_unit_interval; lia.
  - split; [apply Qle_refl | unfold Qle; simpl; lia].
Qed.

Lemma metrics_in_unit_interval_witness :
  (0 <= precision_at_k [7; 7; 8]%Z [7]%Z 2
   /\ precision_at_k [7; 7; 8]%Z [7]%Z 2 <= 1
   /\ 0 <= recall_at_k [7; 7; 8]%Z [7]%Z 2
   /\ recall_at_k [7; 7; 8]%Z [7]%Z 2 <= 1)%Q.
Proof. apply (metrics_in_unit_interval [7; 7; 8] [7] 2). lia. Defined.

End MetricsTheorems.

(** ** Dense re-indexing *)

Section ReindexFacts.
Import Reindex.
Implicit Types (l train test : list Z) (seen : gset Z).

Lemma elem_of_unique_from seen l x :
  x ∈ unique_from seen l <-> x ∈ l /\ x ∉ seen.
Proof.
  revert seen. induction l as [|y l IH]; intros seen; simpl.
  - rewrite !elem_of_nil. tauto.
  - destruct (decide (y ∈ seen)) as [Hy|Hy].
    + rewrite IH, elem_of_cons. split; [tauto|].
      intros [[->|?] ?]; [contradiction | tauto].
    + rewrite !elem_of_cons, IH. split.
      * intros [->|[? Hx]]; [tauto|]. split; [tauto | set_solver].
      * intros [[->|?] ?]; [tauto|].
        destruct (decide (x = y)) as [->|]; [tauto|]. right. set_solver.
Qed.

Lemma NoDup_unique_from seen l : NoDup (unique_from seen l).
Proof.
  revert seen. induction l as [|y l IH]; intros seen; simpl.
  - constructor.
  - destruct (decide (y ∈ seen)); [apply IH|].
    apply NoDup_cons. split; [|apply IH].
    rewrite elem_of_unique_from. set_solver.
Qed.

Lemma unique_from_app seen l1 l2 :
  unique_from seen (l1 ++ l2)
  = unique_from seen l1 ++ unique_from (list_to_set l1 ∪ seen) l2.
Proof.
  revert seen. induction l1 as [|y l1 IH]; intros seen; simpl.
  - by rewrite (left_id_L ∅ (∪)).
  - destruct (decide (y ∈ seen)) as [Hy|Hy].
    + rewrite IH. do 2 f_equal. set_solver.
    + simpl. rewrite IH. do 3 f_equal. set_solver.
Qed.

Lemma elem_of_unique l x : x ∈ unique l <-> x ∈ l.
Proof. unfold unique. rewrite elem_of_unique_from. set_solver. Qed.

Lemma NoDup_unique l : NoDup (unique l).
Proof. apply NoDup_unique_from. Qed.

(** First-seen order: scanning from the left, a value is put at the end
    of the result the first time it is met, and skipped afterwards. *)
Lemma unique_snoc l x :
  unique (l ++ [x]) = if decide (x ∈ l) then unique l else unique l ++ [x].
Proof.
  unfold unique. rewrite unique_from_app. simpl.
  destruct (decide (x ∈ list_to_set l ∪ (∅ : gset Z))) as [Hin|Hin];
    destruct (decide (x ∈ l)) as [Hin'|Hin'];
    [by rewrite (right_id_L [] (++)) | | | done];
    exfalso; set_solver.
Qed.

Lemma length_unique l : length (unique l) = size (list_to_set l : gset Z).
Proof.
  rewrite <- (size_list_to_set (C := gset Z) (unique l)) by apply NoDup_unique.
  f_equal. apply set_eq. intros x.
  by rewrite !elem_of_list_to_set, elem_of_unique.
Qed.

Lemma enumerate_from_lookup n l i :
  enumerate_from n l !! i = (fun x => (n + Z.of_nat i, x)) <$> l !! i.
Proof.
  revert n i. induction l as [|y l IH]; intros n [|i]; simpl; try done.
  - do 2 f_equal. lia.
  - rewrite IH. destruct (l !! i); simpl; [|done]. do 2 f_equal. lia.
Qed.

Lemma dict_from_absent m0 n l y :
  y ∉ l -> dict_from m0 (enumerate_from n l) !! y = m0 !! y.
Proof.
  revert m0 n. induction l as [|x l IH]; intros m0 n Hy; simpl; [done|].
  apply not_elem_of_cons in Hy as [Hne Hy].
  unfold dict_from in *. rewrite IH by done. by rewrite lookup_insert_ne.
Qed.

Lemma dict_from_present m0 n l i y :
  NoDup l -> l !! i = Some y ->
  dict_from m0 (enumerate_from n l) !! y = Some (n + Z.of_nat i).
Proof.
  revert m0 n i. induction l as [|x l IH]; intros m0 n i Hnd Hi; [done|].
  apply NoDup_cons in Hnd as [Hx Hnd]. destruct i as [|i]; simpl in *.
  - injection Hi as ->. fold (dict_from (<[y:=n]> m0) (enumerate_from (n + 1) l)).
    rewrite dict_from_absent by done. rewrite lookup_insert_eq.
    f_equal. lia.
  - fold (dict_from (<[x:=n]> m0) (enumerate_from (n + 1) l)).
    rewrite (IH _ _ i) by done. f_equal. lia.
Qed.

(** The dense id of an item is its position in [all_items]. *)
Lemma item_mapping_lookup train test old new :
  item_mapping train test !! old = Some new
  <-> 0 <= new /\ all_items train test !! Z.to_nat new = Some old.
Proof.
  unfold item_mapping, dict_of_enumeration, enumerate.
  pose proof (NoDup_unique (train ++ test)) as Hnd.
  fold (all_items train test) in Hnd.
  split.
  - intros Hm.
    destruct (decide (old ∈ all_items train test)) as [Hin|Hin].
    + apply list_elem_of_lookup in Hin as [i Hi].
      rewrite (dict_from_present _ _ _ i) in Hm by done.
      injection Hm as <-. split; [lia|].
      by replace (Z.to_nat (0 + Z.of_nat i)) with i by lia.
    + by rewrite dict_from_absent in Hm.
  - intros [Hnew Hi].
    rewrite (dict_from_present _ _ _ (Z.to_nat new)) by done.
    f_equal. lia.
Qed.

Lemma all_items_split train test :
  all_items train test
  = unique train ++ unique_from (list_to_set train ∪ ∅) test.
Proof. unfold all_items, unique. apply unique_from_app. Qed.

End ReindexFacts.

Section ReindexTheorems.
Import Reindex.
Implicit Types (train test : list Z).

Lemma train_item_index train test old :
  old ∈ train ->
  exists i, (i < length (unique train))%nat
            /\ item_mapping train test !! old = Some (Z.of_nat i).
Proof.
  intros Hin. apply elem_of_unique, list_elem_of_lookup in Hin as [i Hi].
  exists i. split; [by eapply lookup_lt_Some|].
  apply item_mapping_lookup. split; [lia|].
  rewrite Nat2Z.id, all_items_split. by apply lookup_app_l_Some.
Qed.

Lemma test_only_item_index train test old :
  old ∈ test -> old ∉ train ->
  exists i, (length (unique train) <= i < length (all_items train test))%nat
            /\ item_mapping train test !! old = Some (Z.of_nat i).
Proof.
  intros Hte Htr.
  assert (Hin : old ∈ unique_from (list_to_set train ∪ ∅) test).
  { apply elem_of_unique_from. split; [done|]. set_solver. }
  apply list_elem_of_lookup in Hin as [j Hj].
  exists (length (unique train) + j)%nat. split.
  - rewrite all_items_split, length_app.
    apply lookup_lt_Some in Hj. lia.
  - apply item_mapping_lookup. split; [lia|].
    rewrite Nat2Z.id, all_items_split.
    rewrite lookup_app_r by lia.
    by replace (length (unique train) + j - length (unique train))%nat
      with j by lia.
Qed.

Lemma item_mapping_inj train test o1 o2 new :
  item_mapping train test !! o1 = Some new ->
  item_mapping train test !! o2 = Some new -> o1 = o2.
Proof.
  rewrite !item_mapping_lookup. intros [_ H1] [_ H2]. congruence.
Qed.

Lemma num_items_train train test :
  num_items train test = Z.of_nat (length (unique train)).
Proof.
  unfold num_items, nunique. f_equal.
  rewrite length_unique.
  set (n := length (unique train)).
  trans (size (list_to_set (Z.of_nat <$> seq 0 n) : gset Z)); last first.
  { rewrite size_list_to_set
      by (apply NoDup_fmap_2; [apply _ | apply NoDup_seq]).
    by rewrite length_fmap, length_seq. }
  f_equal. apply set_eq. intros v.
  rewrite !elem_of_list_to_set, list_elem_of_omap, list_elem_of_fmap.
  split.
  - intros (o & Ho & Hv). simpl in Hv. subst o.
    apply list_elem_of_fmap in Ho as (x & Hx & Hin).
    destruct (train_item_index train test x Hin) as (i & Hi & Hm).
    exists i. split; [congruence|]. apply elem_of_seq. lia.
  - intros (i & -> & Hi). apply elem_of_seq in Hi.
    destruct (lookup_lt_is_Some_2 (unique train) i) as [x Hx]; [lia|].
    exists (Some (Z.of_nat i)). split; [|done].
    apply list_elem_of_fmap. exists x. split.
    + symmetry. apply item_mapping_lookup. split; [lia|].
      rewrite Nat2Z.id, all_items_split. by apply lookup_app_l_Some.
    + apply elem_of_unique. by eapply list_elem_of_lookup_2.
Qed.

End ReindexTheorems.

Section ReindexClaims.
Import Reindex.
Implicit Types (train test : list Z).

(** What the re-indexing guarantees for all columns.  The mapping is a
    bijection between the original item ids occurring in train or test and
    [0, |all_items|): every such id has a dense id in that range, distinct
    ids get distinct dense ids, every dense id of the range is used, and the
    dense id of an item is its position in [all_items], the distinct ids in
    first-seen order (train column first).  [num_items] is the number of
    distinct ids of the train split: the ids of train map into
    [0, num_items), an id occurring only in test maps to a dense id in
    [num_items, |all_items|), and [num_items] is [|all_items|] when every id
    of test occurs in train. *)
Theorem item_mapping_bijection train test :
  let m := item_mapping train test in
  let items := all_items train test in
  let total := Z.of_nat (length items) in
  (forall old, old ∈ train ++ test ->
     exists new, m !! old = Some new /\ 0 <= new < total)
  /\ (forall o1 o2 new, m !! o1 = Some new -> m !! o2 = Some new -> o1 = o2)
  /\ (forall new, 0 <= new < total ->
        exists old, old ∈ train ++ test /\ m !! old = Some new)
  /\ (forall old new,
        m !! old = Some new <-> 0 <= new /\ items !! Z.to_nat new = Some old)
  /\ (forall l x, unique (l ++ [x])
                  = if decide (x ∈ l) then unique l else unique l ++ [x])
  /\ items = unique (train ++ test)
  /\ num_items train test = Z.of_nat (length (unique train))
  /\ num_items train test <= total
  /\ (forall old, old ∈ train ->
        exists new, m !! old = Some new /\ 0 <= new < num_items train test)
  /\ (forall old, old ∈ test -> old ∉ train ->
        exists new, m !! old = Some new /\ num_items train test <= new < total)
  /\ ((forall old, old ∈ test -> old ∈ train) -> num_items train test = total).
Proof.
  intros m items total. subst m items total.
  pose proof (num_items_train train test) as Hnum.
  assert (Hle : num_items train test
                <= Z.of_nat (length (all_items train test))).
  { rewrite Hnum, all_items_split, length_app. lia. }
  split; [|split; [|split; [|split; [|split; [|split; [|split;
    [|split; [|split; [|split]]]]]]]]].
  - intros old Hin. apply elem_of_app in Hin as [Hin|Hin].
    + destruct (train_item_index train test old Hin) as (i & Hi & Hm).
      exists (Z.of_nat i). split; [done|]. rewrite Hnum in Hle. lia.
    + destruct (decide (old ∈ train)) as [Htr|Htr].
      * destruct (train_item_index train test old Htr) as (i & Hi & Hm).
        exists (Z.of_nat i). split; [done|]. rewrite Hnum in Hle. lia.
      * destruct (test_only_item_index train test old Hin Htr)
          as (i & Hi & Hm).
        exists (Z.of_nat i). split; [done|]. lia.
  - apply item_mapping_inj.
  - intros new Hnew.
    destruct (lookup_lt_is_Some_2 (all_items train test) (Z.to_nat new))
      as [old Hold]; [lia|].
    exists old. split.
    + apply list_elem_of_lookup_2 in Hold. unfold all_items in Hold.
      exact (proj1 (elem_of_unique _ _) Hold).
    + apply item_mapping_lookup. split; [lia | done].
  - apply item_mapping_lookup.
  - apply unique_snoc.
  - done.
  - done.
  - done.
  - intros old Hin.
    destruct (train_item_index train test old Hin) as (i & Hi & Hm).
    exists (Z.of_nat i). split; [done|]. lia.
  - intros old Hte Htr.
    destruct (test_only_item_index train test old Hte Htr) as (i & Hi & Hm).
    exists (Z.of_nat i). split; [done|]. lia.
  - intros Hsub. rewrite Hnum. unfold all_items.
    rewrite !length_unique. do 2 f_equal. set_solver.
Qed.

(** Claim C7 on a test split with an item that train does not have.  With
    the train ids [10] and the test ids [20], the mapping sends 10 to 0 and
    20 to 1, a bijection onto [0, 2), while [num_items] is 1: the dense id
    of item 20 is not in [0, num_items), the range the environment declares
    for its actions and the network for its embeddings. *)
Theorem item_mapping_test_only_item :
  all_items [10] [20] = [10; 20]
  /\ item_mapping [10] [20] !! 10 = Some 0
  /\ item_mapping [10] [20] !! 20 = Some 1
  /\ num_items [10] [20] = 1
  /\ ~ (exists new, item_mapping [10] [20] !! 20 = Some new
                    /\ 0 <= new < num_items [10] [20]).
Proof.
  assert (Hm : item_mapping [10] [20] !! 20 = Some 1) by (by vm_compute).
  assert (Hn : num_items [10] [20] = 1) by (by vm_compute).
  split; [by vm_compute|]. split; [by vm_compute|].
  split; [exact Hm|]. split; [exact Hn|].
  intros (new & Hnew & Hr). rewrite Hm in Hnew. injection Hnew as <-.
  rewrite Hn in Hr. lia.
Qed.

End ReindexClaims.

(** ** The environment *)

Section EnvFacts.
Import Env.
Implicit Types (env : AmazonEnv) (st : EnvState) (h : list (Z * Q)).

Lemma step_history_length env st action :
  length (step_history env st action) = S (length (history st)).
Proof. unfold step_history. rewrite length_app. simpl. lia. Qed.

(** [step] never raises; its results, one by one. *)
Lemma step_returns env st action :
  exists state,
    step env st action
    = Returns ({| current_user := current_user st;
                  history := step_history env st action |},
               (state, step_reward env st action,
                M env <=? Z.of_nat (length (step_history env st action))))
    /\ state !! 0%nat = Some (cell_of_user (current_user st)).
Proof. eexists. split; reflexivity. Qed.

Lemma step_unfold env st action :
  step env st action
  = let h := step_history env st action in
    let len := Z.of_nat (length h) in
    Returns
      ({| current_user := current_user st; history := h |},
       ([cell_of_user (current_user st)]
          ++ (cell_of_int <$>
                (if len <? N env then repeat_list 0 (N env - len) ++ h.*1
                 else (slice_from h (- N env)).*1))
          ++ (Num <$>
                (if len <? N env then repeat_list 0%Q (N env - len) ++ h.*2
                 else (slice_from h (- N env)).*2)),
        step_reward env st action,
        M env <=? len)).
Proof. reflexivity. Qed.

Lemma step_observation env st action user :
  1 <= N env -> current_user st = Some user ->
  step env st action
  = Returns ({| current_user := Some user;
                history := step_history env st action |},
             (window_observation (Z.to_nat (N env)) user
                (step_history env st action),
              step_reward env st action,
              M env <=? Z.of_nat (length (step_history env st action)))).
Proof.
  intros HN Hu. rewrite step_unfold. cbv zeta.
  unfold window_observation.
  set (h := step_history env st action). rewrite Hu.
  destruct (Z.ltb_spec (Z.of_nat (length h)) (N env)) as [Hlt|Hge].
  - replace (Z.to_nat (N env) `min` length h)%nat with (length h) by lia.
    replace (length h - length h)%nat with 0%nat by lia.
    unfold repeat_list. rewrite drop_0.
    by replace (Z.to_nat (N env - Z.of_nat (length h)))
      with (Z.to_nat (N env) - length h)%nat by lia.
  - replace (Z.to_nat (N env) `min` length h)%nat with (Z.to_nat (N env))
      by lia.
    replace (Z.to_nat (N env) - Z.to_nat (N env))%nat with 0%nat by lia.
    rewrite slice_from_neg by lia. done.
Qed.

Lemma reset_returns env draw st state :
  reset env draw = Returns (st, state) ->
  exists user, user ∈ df_user_idx env
    /\ st = {| current_user := Some user; history := [] |}
    /\ state = [cell_of_int user]
                 ++ replicate (Z.to_nat (N env)) (cell_of_int 0)
                 ++ replicate (Z.to_nat (N env)) (cell_of_int 0).
Proof.
  unfold reset, random_choice. simpl.
  destruct (Reindex.unique (df_user_idx env) !! _) as [user|] eqn:Hu;
    simpl; [|done].
  intros [= <- <-]. exists user. split; [|split; [done|]].
  - apply list_elem_of_lookup_2 in Hu. exact (proj1 (elem_of_unique _ _) Hu).
  - unfold repeat_list. by rewrite fmap_replicate.
Qed.

Lemma unique_nonempty (l : list Z) : l <> [] -> (0 < length (Reindex.unique l))%nat.
Proof.
  destruct l as [|x l]; [done|]. intros _.
  assert (Hx : x ∈ Reindex.unique (x :: l))
    by (apply elem_of_unique; set_solver).
  destruct (Reindex.unique (x :: l)); [by apply elem_of_nil in Hx|].
  simpl. lia.
Qed.

Lemma reset_nonempty env draw :
  df_user_idx env <> [] -> exists st state, reset env draw = Returns (st, state).
Proof.
  intros Hne. apply unique_nonempty in Hne.
  unfold reset, random_choice. simpl.
  destruct (lookup_lt_is_Some_2 (Reindex.unique (df_user_idx env))
              (draw `mod` length (Reindex.unique (df_user_idx env)))%nat)
    as [user Hu].
  { apply Nat.mod_upper_bound. lia. }
  rewrite Hu. simpl. eauto.
Qed.

End EnvFacts.

Section EnvTheorems.
Import Env.
Implicit Types (env : AmazonEnv) (st : EnvState).

(** Claim C3.  For every environment state with the current user set and
    every action, [step] returns; the reward is the rating of
    (current user, action) when the store has one and the penalty -0.1
    otherwise; the pair (action, reward) is appended at the end of the
    history, which grows by exactly one entry. *)
Theorem step_reward_and_history env st action user :
  current_user st = Some user ->
  exists st' state reward done,
    step env st action = Returns (st', (state, reward, done))
    /\ (forall r, user_ratings env !! (user, action) = Some r -> reward = r)
    /\ (user_ratings env !! (user, action) = None -> reward = (- (1 # 10))%Q)
    /\ history st' = history st ++ [(action, reward)]
    /\ length (history st') = S (length (history st))
    /\ current_user st' = Some user.
Proof.
  intros Hu. destruct (step_returns env st action) as (state & Hstep & _).
  eexists _, state, _, _. split; [exact Hstep|]. simpl.
  pose proof (step_history_length env st action) as Hlen.
  unfold step_history, step_reward, lookup_rating in *. rewrite Hu in *.
  split; [|split; [|split; [|split]]].
  - by intros r ->.
  - by intros ->.
  - done.
  - exact Hlen.
  - done.
Qed.

Lemma step_reward_and_history_witness :
  exists st' state reward done,
    step Sample.env_5_10 Sample.started 2 = Returns (st', (state, reward, done))
    /\ (forall r, Sample.ratings !! (1, 2) = Some r -> reward = r)
    /\ (Sample.ratings !! (1, 2) = None -> reward = (- (1 # 10))%Q)
    /\ history st' = [] ++ [(2, reward)]
    /\ length (history st') = 1%nat
    /\ current_user st' = Some 1.
Proof.
  apply (step_reward_and_history Sample.env_5_10 Sample.started 2 1).
  reflexivity.
Defined.

(** Claim C8, as stated, fails: [step] has no check of the action against
    the range of item ids; an action outside [0, num_items) is answered
    like any other one without a rating, with the penalty as reward. *)
Lemma step_accepts_invalid_action :
  ~ (0 <= 7 < num_items Sample.env_5_10)
  /\ step Sample.env_5_10 Sample.started 7
     = Returns ({| current_user := Some 1; history := [(7, (- (1 # 10))%Q)] |},
                (window_observation 5 1 [(7, (- (1 # 10))%Q)],
                 (- (1 # 10))%Q, false))
  /\ ~ (exists e, step Sample.env_5_10 Sample.started 7 = Raises e).
Proof.
  split; [simpl; lia|].
  assert (Hstep : step Sample.env_5_10 Sample.started 7
     = Returns ({| current_user := Some 1; history := [(7, (- (1 # 10))%Q)] |},
                (window_observation 5 1 [(7, (- (1 # 10))%Q)],
                 (- (1 # 10))%Q, false))) by (vm_compute; reflexivity).
  split; [exact Hstep|]. intros [e He]. rewrite Hstep in He. discriminate.
Qed.

(** Claim C8, amended.  [step] makes no range check: for every state and
    every action, inside or outside [0, num_items), it returns without an
    error, with the rating of (current user, action) as reward when the
    store has one and the penalty -0.1 otherwise, and appends
    (action, reward) to the history. *)
Theorem step_never_raises env st action :
  exists st' state reward done,
    step env st action = Returns (st', (state, reward, done))
    /\ reward = default (- (1 # 10))%Q
                  (lookup_rating env (current_user st) action)
    /\ history st' = history st ++ [(action, reward)].
Proof.
  destruct (step_returns env st action) as (state & Hstep & _).
  eexists _, state, _, _. split; [exact Hstep|]. done.
Qed.

End EnvTheorems.

Section ObservationFacts.
Import Env.
Implicit Types (env : AmazonEnv) (st : EnvState) (h : list (Z * Q)).







End ObservationFacts.

Section ObservationTheorems.
Import Env.
Implicit Types (env : AmazonEnv) (st : EnvState).

(** Claim C4 at an empty window.  With [N = 0] the branch
    [self.history[-self.N:]] of [step] reads [self.history[-0:]], the whole
    history: after [reset] the observation has the declared length
    [1 + 2 * N = 1], after one call of [step] it has three cells, while the
    most recent [min(N, 1) = 0] entries padded to [N = 0] slots give the
    user id alone. *)
Theorem step_observation_empty_window :
  reset Sample.env_0_10 0 = Returns (Sample.started, [cell_of_int 1])
  /\ step Sample.env_0_10 Sample.started 2
     = Returns ({| current_user := Some 1; history := [(2, 5%Q)] |},
                ([cell_of_int 1; cell_of_int 2; Num 5%Q], 5%Q, false))
  /\ window_observation 0 1 [(2, 5%Q)] = [cell_of_int 1]
  /\ observation_space_shape Sample.env_0_10 = 1.
Proof. vm_compute. repeat split. Qed.

(** Claim C10.  The observation does not determine the state of the
    episode: when the store rates the pair (current user, item 0) with 0,
    the state just after [reset] (empty history) and the state after one
    call of [step] with action 0 (history [(0, 0)]) have the same user,
    are both reachable, differ, and have the same observation. *)
Theorem observation_not_injective env draw st0 state0 user :
  1 <= N env ->
  reset env draw = Returns (st0, state0) ->
  current_user st0 = Some user ->
  user_ratings env !! (user, 0) = Some 0%Q ->
  exists st1 state1,
    reachable env st0 state0 /\ reachable env st1 state1
    /\ st0 <> st1
    /\ current_user st1 = current_user st0
    /\ history st0 = [] /\ history st1 = [(0, 0%Q)]
    /\ state1 = state0.
Proof.
  intros HN Hreset Hu Hrate.
  destruct (reset_returns env draw st0 state0 Hreset)
    as (user' & _ & Hst0 & Hstate0).
  assert (user' = user) as -> by (subst st0; simpl in Hu; congruence).
  pose proof (step_observation env st0 0 user HN Hu) as Hstep.
  assert (Hh : step_history env st0 0 = [(0, 0%Q)]).
  { unfold step_history, step_reward, lookup_rating.
    rewrite Hu, Hrate. by subst st0. }
  rewrite Hh in Hstep.
  exists {| current_user := Some user; history := [(0, 0%Q)] |},
    (window_observation (Z.to_nat (N env)) user [(0, 0%Q)]).
  split; [by eapply reachable_reset|].
  split; [eapply reachable_step; [by eapply reachable_reset | exact Hstep]|].
  split; [subst st0; intros [=]|].
  split; [by subst st0|]. split; [by subst st0|]. split; [done|].
  subst state0. unfold window_observation. simpl.
  replace (Z.to_nat (N env) `min` 1)%nat with 1%nat by lia.
  destruct (Z.to_nat (N env)) as [|n] eqn:Hn; [lia|]. simpl.
  rewrite Nat.sub_0_r, !fmap_app, !fmap_replicate. simpl.
  by rewrite <- !replicate_cons_app.
Qed.

Lemma observation_not_injective_witness :
  exists st1 state1,
    reachable Sample.env_5_10 Sample.started
      (cell_of_int 1 :: replicate 10 (cell_of_int 0))
    /\ reachable Sample.env_5_10 st1 state1
    /\ Sample.started <> st1
    /\ current_user st1 = Some 1
    /\ history Sample.started = [] /\ history st1 = [(0, 0%Q)]
    /\ state1 = cell_of_int 1 :: replicate 10 (cell_of_int 0).
Proof.
  apply (observation_not_injective Sample.env_5_10 0 Sample.started
           (cell_of_int 1 :: replicate 10 (cell_of_int 0)) 1).
  - simpl. lia.
  - reflexivity.
  - reflexivity.
  - reflexivity.
Defined.

End ObservationTheorems.

(** ** The agent *)

Section AgentFacts.
Import Env Agent.
Implicit Types (agent : DQNAgent) (state : list cell) (d : draws).

Lemma Qlt_bool_true x y : Qlt_bool x y = true <-> (x < y)%Q.
Proof.
  unfold Qlt_bool. rewrite negb_true_iff, <- not_true_iff_false, Qle_bool_iff.
  split; [apply Qnot_le_lt | apply Qlt_not_le].
Qed.

Lemma Qlt_bool_false x y : Qlt_bool x y = false <-> (y <= x)%Q.
Proof. unfold Qlt_bool. by rewrite negb_false_iff, Qle_bool_iff. Qed.

Lemma int_of_cell_of_int z : int_of_cell (cell_of_int z) = Returns z.
Proof. unfold int_of_cell, cell_of_int. simpl. by rewrite Z.quot_1_r. Qed.

(** The scan of [argmax] keeps the first maximum of what it has read. *)
Lemma argmax_from_first_maximum l pre best_i best :
  first_maximum pre best_i ->
  pre !! Z.to_nat best_i = Some best ->
  first_maximum (pre ++ l)
    (argmax_from best_i best (Z.of_nat (length pre)) l).
Proof.
  revert pre best_i best.
  induction l as [|x l IH]; intros pre best_i best Hinv Hbest; simpl.
  - by rewrite (right_id_L [] (++)).
  - destruct Hinv as (Hpos & v & Hv & Hmax).
    assert (v = best) as -> by congruence.
    pose proof (lookup_lt_Some _ _ _ Hbest) as Hlt.
    replace (Z.of_nat (length pre) + 1)
      with (Z.of_nat (length (pre ++ [x])))
      by (rewrite length_app; simpl; lia).
    rewrite (cons_middle x pre l), (assoc_L (++)).
    destruct (Qlt_bool best x) eqn:Hcmp.
    + apply Qlt_bool_true in Hcmp. apply IH.
      * split; [lia|]. exists x. rewrite Nat2Z.id. split.
        { by rewrite lookup_app_r, Nat.sub_diag by lia. }
        intros j w Hj. apply lookup_app_Some in Hj as [Hj|[Hge Hj]].
        -- destruct (Hmax j w Hj) as [Hle _].
           split; [apply Qlt_le_weak|intros _]; by eapply Qle_lt_trans.
        -- apply list_lookup_singleton_Some in Hj as [Hj <-].
           split; [apply Qle_refl | lia].
      * by rewrite Nat2Z.id, lookup_app_r, Nat.sub_diag by lia.
    + apply Qlt_bool_false in Hcmp. apply IH.
      * split; [done|]. exists best. split.
        { by rewrite lookup_app_l by lia. }
        intros j w Hj. apply lookup_app_Some in Hj as [Hj|[Hge Hj]].
        -- by apply Hmax.
        -- apply list_lookup_singleton_Some in Hj as [Hj <-].
           split; [done | lia].
      * by rewrite lookup_app_l by lia.
Qed.

Lemma argmax_first_maximum scores :
  scores <> [] ->
  exists a, argmax scores = Returns a /\ first_maximum scores a.
Proof.
  destruct scores as [|x l]; [done|]. intros _.
  eexists. split; [reflexivity|].
  apply (argmax_from_first_maximum l [x] 0 x); [|done].
  split; [done|]. exists x. split; [done|].
  intros [|j] w Hj; [|done]. injection Hj as <-.
  split; [apply Qle_refl | simpl; lia].
Qed.

Lemma first_maximum_unique scores a b :
  first_maximum scores a -> first_maximum scores b -> a = b.
Proof.
  intros (Ha & va & Hva & Hmaxa) (Hb & vb & Hvb & Hmaxb).
  destruct (Z.lt_trichotomy a b) as [Hlt|[->|Hlt]]; [|done|].
  - destruct (Hmaxb _ _ Hva) as [_ Hlt']. destruct (Hmaxa _ _ Hvb) as [Hle _].
    exfalso. apply (Qlt_not_le va vb); [apply Hlt'; lia | done].
  - destruct (Hmaxa _ _ Hvb) as [_ Hlt']. destruct (Hmaxb _ _ Hva) as [Hle _].
    exfalso. apply (Qlt_not_le vb va); [apply Hlt'; lia | done].
Qed.

Lemma tensor_max_returns scores :
  scores <> [] -> exists m, tensor_max scores = Returns m.
Proof. destruct scores; [done|]. intros _. by eexists. Qed.

(** [random.choice(list(user_items))] on a non-empty set. *)
Lemma random_choice_elements (X : gset Z) (pick : nat) (e : exn) :
  X <> ∅ ->
  exists a, random_choice (elements X) pick e = Returns a
            /\ a ∈ X
            /\ elements X !! (pick `mod` size X)%nat = Some a.
Proof.
  intros Hne. unfold random_choice.
  assert (Hsize : (0 < size X)%nat).
  { destruct (size X) eqn:E; [|lia].
    apply size_empty_inv in E. by apply leibniz_equiv in E. }
  change (length (elements X)) with (size X).
  destruct (lookup_lt_is_Some_2 (elements X) (pick `mod` size X)%nat)
    as [a Ha].
  { change (length (elements X)) with (size X).
    apply Nat.mod_upper_bound. lia. }
  exists a. rewrite Ha. split; [done|]. split; [|done].
  apply elem_of_elements. by eapply list_elem_of_lookup_2.
Qed.

End AgentFacts.

Section SelectAction.
Import Env Agent.
Implicit Types (agent : DQNAgent) (state : list cell) (d : draws).

(** [select_action] on an observation that starts with a user id, for a
    scorer that gives at least one score. *)
Lemma select_action_unfold agent state d user :
  state !! 0%nat = Some (cell_of_int user) ->
  policy_net agent state <> [] ->
  select_action agent state d
  = let known := default ∅ (user_interactions (env agent) !! user) in
    if bool_decide (known <> ∅) && Qlt_bool (uniform d) (3 # 4)
    then match random_choice (elements known) (pick d) IndexError with
         | Returns action => Returns (action, agent)
         | Raises e => Raises e
         end
    else match argmax (policy_net agent state) with
         | Returns action => Returns (action, agent)
         | Raises e => Raises e
         end.
Proof.
  intros Hhead Hscores. unfold select_action. rewrite Hhead. simpl.
  rewrite Z.quot_1_r.
  destruct (tensor_max_returns _ Hscores) as [m ->]. simpl.
  by destruct (bool_decide _ && _).
Qed.

Lemma select_action_returns agent state d user :
  state !! 0%nat = Some (cell_of_int user) ->
  policy_net agent state <> [] ->
  exists action, select_action agent state d = Returns (action, agent).
Proof.
  intros Hhead Hscores. rewrite (select_action_unfold _ _ _ user) by done.
  cbv zeta.
  destruct (bool_decide _) eqn:Hb; simpl.
  - destruct (Qlt_bool (uniform d) (3 # 4)).
    + apply bool_decide_eq_true in Hb.
      destruct (random_choice_elements _ (pick d) IndexError Hb)
        as (a & -> & _). by exists a.
    + destruct (argmax_first_maximum _ Hscores) as (a & -> & _). by exists a.
  - destruct (argmax_first_maximum _ Hscores) as (a & -> & _). by exists a.
Qed.

(** Claim C6.  For an observation that starts with the id of a user and a
    scorer that gives at least one score, with [known] the relevant items
    of that user: when [known] is not empty and the uniform draw is below
    0.75, [select_action] returns the item of [known] at the drawn index,
    and every item of [known] sits at exactly one index below the size of
    [known] (so a uniform index gives a uniform item); otherwise it returns
    the index of a maximal score, the lowest such index; in both cases the
    agent comes back unchanged, and the result depends on nothing but the
    agent, the observation and the draws. *)
Theorem select_action_behaviour agent state d user :
  state !! 0%nat = Some (cell_of_int user) ->
  policy_net agent state <> [] ->
  let known := default ∅ (user_interactions (env agent) !! user) in
  let scores := policy_net agent state in
  (known <> ∅ -> (uniform d < 3 # 4)%Q ->
     exists action,
       select_action agent state d = Returns (action, agent)
       /\ action ∈ known
       /\ elements known !! (pick d `mod` size known)%nat = Some action)
  /\ (forall item, item ∈ known ->
        exists i, (i < size known)%nat /\ elements known !! i = Some item
                  /\ forall i', elements known !! i' = Some item -> i' = i)
  /\ (known = ∅ \/ (3 # 4 <= uniform d)%Q ->
        exists action,
          select_action agent state d = Returns (action, agent)
          /\ first_maximum scores action
          /\ forall b, first_maximum scores b -> b = action).
Proof.
  intros Hhead Hscores known scores.
  rewrite (select_action_unfold _ _ _ user) by done. cbv zeta.
  fold known. fold scores.
  split; [|split].
  - intros Hne Hdraw.
    rewrite bool_decide_eq_true_2 by done.
    apply Qlt_bool_true in Hdraw. rewrite Hdraw. simpl.
    destruct (random_choice_elements known (pick d) IndexError Hne)
      as (a & -> & Hin & Hidx).
    by exists a.
  - intros item Hin. apply elem_of_elements, list_elem_of_lookup in Hin.
    destruct Hin as [i Hi]. exists i. split; [|split; [done|]].
    + by apply lookup_lt_Some in Hi.
    + intros i' Hi'.
      exact (NoDup_lookup _ _ _ _ (NoDup_elements known) Hi' Hi).
  - intros Hcase.
    assert (Hcond : bool_decide (known <> ∅)
                    && Qlt_bool (uniform d) (3 # 4) = false).
    { destruct Hcase as [Hempty|Hdraw].
      - by rewrite bool_decide_eq_false_2 by (intros Hne; by apply Hne).
      - apply Qlt_bool_false in Hdraw. rewrite Hdraw. apply andb_false_r. }
    rewrite Hcond.
    destruct (argmax_first_maximum scores Hscores) as (a & -> & Hmax).
    exists a. split; [done|]. split; [done|].
    intros b Hb. by eapply first_maximum_unique.
Qed.

Lemma select_action_behaviour_witness :
  (exists action,
     select_action (Sample.agent_of Sample.env_5_10)
       [cell_of_int 1; cell_of_int 0] Sample.explore
     = Returns (action, Sample.agent_of Sample.env_5_10)
     /\ action ∈ ({[ 0; 2 ]} : gset Z)
     /\ elements ({[ 0; 2 ]} : gset Z) !! (1 `mod` 2)%nat = Some action)
  /\ (exists action,
        select_action (Sample.agent_of Sample.env_5_10)
          [cell_of_int 1; cell_of_int 0] Sample.exploit
        = Returns (action, Sample.agent_of Sample.env_5_10)
        /\ first_maximum [(1 # 2)%Q; 2%Q; 2%Q] action
        /\ forall b, first_maximum [(1 # 2)%Q; 2%Q; 2%Q] b -> b = action).
Proof.
  pose proof (select_action_behaviour (Sample.agent_of Sample.env_5_10)
                [cell_of_int 1; cell_of_int 0] Sample.explore 1
                eq_refl ltac:(discriminate)) as (H1 & _ & _).
  pose proof (select_action_behaviour (Sample.agent_of Sample.env_5_10)
                [cell_of_int 1; cell_of_int 0] Sample.exploit 1
                eq_refl ltac:(discriminate)) as (_ & _ & H2).
  split.
  - apply H1; [by vm_compute | reflexivity].
  - apply H2. right. by vm_compute.
Defined.

End SelectAction.

(** ** Episodes *)

Section EpisodeFacts.
Import Env Agent.
Implicit Types (e : AmazonEnv) (agent : DQNAgent) (st : EnvState).

(** Along an episode in which the caller stops at the first [done], the
    history has one entry per call and, for [M >= 1], never more than [M]
    entries. *)
Lemma episode_trace_history e st0 actions st done :
  1 <= M e -> history st0 = [] ->
  episode_trace e st0 actions st done ->
  (history st).*1 = actions
  /\ Z.of_nat (length actions) <= M e
  /\ done = (M e <=? Z.of_nat (length actions)).
Proof.
  intros HM Hh0. induction 1 as [a st state r done Hstep
    | actions st a st' state r done Htrace IH Hstep].
  - destruct (step_returns e st0 a) as (state' & Hret & _).
    rewrite Hret in Hstep. injection Hstep as <- _ _ <-.
    unfold step_history. rewrite Hh0. simpl. split; [done|]. split; [lia|done].
  - destruct IH as (Hacts & Hle & Hdone).
    destruct (step_returns e st a) as (state' & Hret & _).
    rewrite Hret in Hstep. injection Hstep as <- _ _ <-.
    symmetry in Hdone. apply Z.leb_gt in Hdone.
    assert (Hlen : length (history st) = length actions)
      by (by rewrite <- Hacts, length_fmap).
    unfold step_history. simpl.
    rewrite fmap_app, Hacts, !length_app, Hlen. simpl.
    split; [done|]. split; [lia|done].
Qed.

Lemma episode_loop_S fuel e agent rng st state recommended total :
  episode_loop (S fuel) e agent rng st state recommended total
  = match select_action agent state (rng (length recommended)) with
    | Raises x => Some (Raises x)
    | Returns (action, agent') =>
        match step e st action with
        | Raises x => Some (Raises x)
        | Returns (st', (next_state, reward, done)) =>
            if done
            then Some (Returns {| final_state := st';
                                  last_observation := next_state;
                                  recommended_items := recommended ++ [action];
                                  total_reward := (total + reward)%Q |})
            else episode_loop fuel e agent' rng st' next_state
                              (recommended ++ [action]) (total + reward)%Q
        end
    end.
Proof. reflexivity. Qed.

(** The loop of [evaluate_agent] from a state with fewer than [M] entries:
    it stops, after the calls that fill the history up to [M]. *)
Lemma episode_loop_terminates e agent rng user fuel :
  (forall s, policy_net agent s <> []) ->
  forall st state recommended total,
    current_user st = Some user ->
    state !! 0%nat = Some (cell_of_int user) ->
    recommended = (history st).*1 ->
    Z.of_nat (length (history st)) < M e ->
    (Z.to_nat (M e) - length (history st) <= fuel)%nat ->
    exists ep,
      episode_loop fuel e agent rng st state recommended total
      = Some (Returns ep)
      /\ Z.of_nat (length (recommended_items ep)) = M e
      /\ recommended_items ep = (history (final_state ep)).*1
      /\ current_user (final_state ep) = Some user.
Proof.
  intros Hscores.
  induction fuel as [|fuel IH];
    intros st state recommended total Hu Hhead Hrec Hlt Hfuel; [lia|].
  rewrite episode_loop_S.
  destruct (select_action_returns agent state (rng (length recommended))
              user Hhead (Hscores state)) as [a ->].
  destruct (step_returns e st a) as (state' & Hret & Hhead').
  rewrite Hret. rewrite Hu in Hhead'.
  pose proof (step_history_length e st a) as Hlen.
  assert (Hfst : (step_history e st a).*1 = recommended ++ [a])
    by (unfold step_history; by rewrite fmap_app, Hrec).
  destruct (Z.leb_spec (M e) (Z.of_nat (length (step_history e st a))))
    as [Hdone|Hmore].
  - eexists. split; [reflexivity|]. simpl.
    split; [|done]. rewrite <- Hfst, length_fmap. lia.
  - apply IH; simpl; try done; lia.
Qed.

End EpisodeFacts.

Section EpisodeTheorems.
Import Env Agent.
Implicit Types (e : AmazonEnv) (agent : DQNAgent) (st : EnvState).

(** Claim C5, as stated, fails for an episode length of zero: the first
    call of [step] already returns [done = True], with one entry in the
    history and not [M = 0]. *)
Lemma episode_of_length_zero :
  ~ (forall actions st done,
       episode_trace Sample.env_5_0 Sample.started actions st done ->
       (done = true <-> Z.of_nat (length (history st)) = M Sample.env_5_0)).
Proof.
  intros H.
  assert (Htrace : episode_trace Sample.env_5_0 Sample.started [2]
                     {| current_user := Some 1; history := [(2, 5%Q)] |} true).
  { eapply trace_first. vm_compute. reflexivity. }
  apply H in Htrace. destruct Htrace as [Htrace _].
  specialize (Htrace eq_refl). discriminate Htrace.
Qed.

(** Claim C5, amended.  The flag returned by [step] is true exactly when
    the history, after the append, has at least [M] entries.  For an
    episode length [M >= 1]: in every episode in which the caller stops at
    the first [done], the history has one entry per call, never more than
    [M], and the flag is true if and only if the history has exactly [M]
    entries; and the loop of [evaluate_agent], given fuel for [M] rounds,
    a non-empty user column and a scorer that gives at least one score,
    ends with a recommendation list and a history of exactly [M]
    entries. *)
Theorem episode_has_M_steps e agent user_draw rng fuel :
  (forall st action,
     exists st' state reward done,
       step e st action = Returns (st', (state, reward, done))
       /\ (done = true <-> M e <= Z.of_nat (length (history st'))))
  /\ (1 <= M e ->
      (forall st0 actions st done,
         history st0 = [] -> episode_trace e st0 actions st done ->
         length (history st) = length actions
         /\ Z.of_nat (length actions) <= M e
         /\ (done = true <-> Z.of_nat (length (history st)) = M e))
      /\ (df_user_idx e <> [] ->
          (forall s, policy_net agent s <> []) ->
          (Z.to_nat (M e) <= fuel)%nat ->
          exists ep,
            run_episode fuel e agent user_draw rng = Some (Returns ep)
            /\ Z.of_nat (length (recommended_items ep)) = M e
            /\ Z.of_nat (length (history (final_state ep))) = M e)).
Proof.
  split.
  - intros st action.
    destruct (step_returns e st action) as (state & Hret & _).
    eexists _, state, _, _. split; [exact Hret|]. simpl.
    apply Z.leb_le.
  - intros HM. split.
    + intros st0 actions st done Hh0 Htrace.
      destruct (episode_trace_history e st0 actions st done HM Hh0 Htrace)
        as (Hacts & Hle & ->).
      assert (Hlen : length (history st) = length actions)
        by (by rewrite <- Hacts, length_fmap).
      split; [done|]. split; [done|].
      rewrite Z.leb_le, Hlen. lia.
    + intros Hne Hscores Hfuel.
      destruct (reset_nonempty e user_draw Hne) as (st0 & state0 & Hreset).
      unfold run_episode. rewrite Hreset.
      destruct (reset_returns e user_draw st0 state0 Hreset)
        as (user & _ & -> & ->).
      destruct (episode_loop_terminates e agent rng user fuel Hscores
                  {| current_user := Some user; history := [] |}
                  ([cell_of_int user]
                     ++ replicate (Z.to_nat (N e)) (cell_of_int 0)
                     ++ replicate (Z.to_nat (N e)) (cell_of_int 0))
                  [] 0%Q)
        as (ep & Hloop & Hlen & Hrec & _); try done; simpl; try lia.
      exists ep. split; [done|]. split; [done|].
      by rewrite <- Hlen, Hrec, length_fmap.
Qed.

Lemma episode_has_M_steps_witness :
  exists ep,
    run_episode 2 Sample.env_5_2 (Sample.agent_of Sample.env_5_2) 0
      (fun _ => Sample.exploit)
    = Some (Returns ep)
    /\ Z.of_nat (length (recommended_items ep)) = 2
    /\ Z.of_nat (length (history (final_state ep))) = 2.
Proof.
  apply (episode_has_M_steps Sample.env_5_2 (Sample.agent_of Sample.env_5_2)
           0 (fun _ => Sample.exploit) 2).
  - simpl. lia.
  - discriminate.
  - intros s. discriminate.
  - simpl. lia.
Defined.

End EpisodeTheorems.


(** * Further properties of the metrics *)

Section MetricsMore.
Import Metrics.
Implicit Types (recommended relevant l : list Z) (k : Z).

Lemma ratio_le (a a' b : Z) :
  0 < b -> a <= a' -> (inject_Z a / inject_Z b <= inject_Z a' / inject_Z b)%Q.
Proof.
  intros Hb Ha. unfold Qdiv. apply Qmult_le_compat_r.
  - unfold Qle; simpl; lia.
  - apply Qlt_le_weak, Qinv_lt_0_compat. unfold Qlt; simpl; lia.
Qed.

Lemma ratio_eq_one (a b : Z) :
  0 < b -> (inject_Z a / inject_Z b == 1)%Q <-> a = b.
Proof.
  intros Hb. destruct b as [|p|p]; try lia.
  unfold Qeq, Qdiv, Qmult, Qinv, inject_Z; simpl. lia.
Qed.




(** Up to [k = len(relevant)] the two metrics have the same denominator:
    recall cannot exceed precision, and they coincide when no item is
    recommended twice among the first [k]. *)
Theorem recall_le_precision recommended relevant k :
  0 < k <= Z.of_nat (length relevant) ->
  (recall_at_k recommended relevant k <= precision_at_k recommended relevant k)%Q
  /\ (NoDup (first_k recommended k) ->
      recall_at_k recommended relevant k = precision_at_k recommended relevant k).
Proof.
  intros [Hk Hlen]. rewrite recall_at_k_unfold, precision_at_k_unfold.
  replace (Z.min (Z.of_nat (length relevant)) k) with k by lia.
  destruct (Z.ltb_spec 0 k); [|lia]. split.
  - apply ratio_le; [done|].
    pose proof (distinct_count_le_position_count relevant (first_k recommended k)).
    lia.
  - intros Hnd. by rewrite distinct_count_NoDup.
Qed.

Lemma recall_le_precision_witness :
  Qle (recall_at_k [4; 7; 7] [7; 9; 11] 3)
      (precision_at_k [4; 7; 7] [7; 9; 11] 3)
  /\ (NoDup (first_k [4; 7; 7] 2) ->
      recall_at_k [4; 7; 7] [7; 9; 11] 2 = precision_at_k [4; 7; 7] [7; 9; 11] 2).
Proof.
  split.
  - apply (recall_le_precision [4; 7; 7] [7; 9; 11] 3). simpl. lia.
  - apply (recall_le_precision [4; 7; 7] [7; 9; 11] 2). simpl. lia.
Defined.

(** With a duplicate-free [relevant] of at most [k] items, recall reaches 1
    exactly when every relevant item is among the first [k] recommended. *)
Theorem recall_one_iff recommended relevant k :
  NoDup relevant -> (0 < length relevant)%nat ->
  Z.of_nat (length relevant) <= k ->
  (recall_at_k recommended relevant k == 1)%Q
  <-> forall x, x ∈ relevant -> x ∈ first_k recommended k.
Proof.
  intros Hnd Hpos Hk. rewrite recall_at_k_unfold.
  replace (Z.min (Z.of_nat (length relevant)) k)
    with (Z.of_nat (length relevant)) by lia.
  destruct (Z.ltb_spec 0 (Z.of_nat (length relevant))); [|lia].
  rewrite ratio_eq_one by lia.
  rewrite <- size_intersection_distinct.
  rewrite <- (size_list_to_set (C := gset Z) relevant) by done.
  set (top := list_to_set (first_k recommended k) : gset Z).
  set (rel := list_to_set relevant : gset Z).
  split.
  - intros Hsize x Hx.
    assert (Heq : top ∩ rel = rel).
    { apply set_subseteq_size_eq; [set_solver | lia]. }
    assert (Hin : x ∈ top ∩ rel)
      by (rewrite Heq; by apply elem_of_list_to_set).
    apply elem_of_intersection in Hin as [Hin _].
    by apply elem_of_list_to_set in Hin.
  - intros Hall. f_equal. f_equal. apply set_eq. intros x.
    subst top rel. rewrite elem_of_intersection, !elem_of_list_to_set.
    split; [tauto | auto].
Qed.

Lemma recall_one_iff_witness :
  Qeq (recall_at_k [5; 3; 8; 3] [3; 8] 3) 1%Q
  <-> forall x, x ∈ [3; 8] -> x ∈ first_k [5; 3; 8; 3] 3.
Proof.
  apply (recall_one_iff [5; 3; 8; 3] [3; 8] 3).
  - apply (bool_decide_unpack _). by vm_compute.
  - simpl. lia.
  - simpl. lia.
Defined.



(** Both metrics look at the first [k] recommended items as a bag: the
    order of these items does not matter. *)
Theorem metrics_permutation recommended recommended' relevant k :
  first_k recommended k ≡ₚ first_k recommended' k ->
  precision_at_k recommended relevant k = precision_at_k recommended' relevant k
  /\ recall_at_k recommended relevant k = recall_at_k recommended' relevant k.
Proof.
  intros Hperm. rewrite !precision_at_k_unfold, !recall_at_k_unfold.
  assert (Hpos : position_count relevant (first_k recommended k)
                 = position_count relevant (first_k recommended' k)).
  { unfold position_count. by rewrite Hperm. }
  assert (Hdis : distinct_count relevant (first_k recommended k)
                 = distinct_count relevant (first_k recommended' k)).
  { rewrite <- !size_intersection_distinct. do 2 f_equal.
    apply set_eq. intros x. by rewrite !elem_of_list_to_set, Hperm. }
  by rewrite Hpos, Hdis.
Qed.

Lemma metrics_permutation_witness :
  precision_at_k [1; 2; 9] [2] 2 = precision_at_k [2; 1; 7] [2] 2
  /\ recall_at_k [1; 2; 9] [2] 2 = recall_at_k [2; 1; 7] [2] 2.
Proof.
  apply (metrics_permutation [1; 2; 9] [2; 1; 7] [2] 2).
  apply perm_swap.
Defined.

End MetricsMore.

(** * Further properties of the re-indexing *)

Section ReindexMore.
Import Reindex.
Implicit Types (train test col : list Z).

Lemma item_mapping_bijection_witness :
  (exists new, item_mapping [10; 30; 10] [20; 30] !! 20 = Some new
               /\ num_items [10; 30; 10] [20; 30] <= new
                  < Z.of_nat (length (all_items [10; 30; 10] [20; 30])))
  /\ num_items [10; 30; 10] [30; 10]
     = Z.of_nat (length (all_items [10; 30; 10] [30; 10])).
Proof.
  split.
  - apply (item_mapping_bijection [10; 30; 10] [20; 30]);
      apply (bool_decide_unpack _); by vm_compute.
  - apply (item_mapping_bijection [10; 30; 10] [30; 10]).
    intros old Hold. apply (bool_decide_unpack _).
    apply elem_of_cons in Hold as [->|Hold]; [by vm_compute|].
    apply elem_of_cons in Hold as [->|Hold]; [by vm_compute|].
    by apply elem_of_nil in Hold.
Defined.

Lemma item_mapping_total train test old :
  old ∈ train ++ test ->
  exists new, item_mapping train test !! old = Some new
              /\ 0 <= new < Z.of_nat (length (all_items train test)).
Proof.
  intros Hin.
  assert (Hle : (length (unique train) <= length (all_items train test))%nat)
    by (rewrite all_items_split, length_app; lia).
  destruct (decide (old ∈ train)) as [Htr|Htr].
  - destruct (train_item_index train test old Htr) as (i & Hi & Hm).
    exists (Z.of_nat i). split; [done | lia].
  - apply elem_of_app in Hin as [Hin|Hin]; [done|].
    destruct (test_only_item_index train test old Hin Htr) as (i & Hi & Hm).
    exists (Z.of_nat i). split; [done | lia].
Qed.

(** Re-indexing a column whose ids all occur in train or test, with
    [Series.map(item_mapping)]: the column keeps its length, no row becomes
    NaN, the row of an original id gets the position of that id in
    [all_items] (so [all_items] maps the dense id back), and two rows get
    the same dense id exactly when they had the same original id. *)
Theorem series_map_reindexes train test col :
  (forall x, x ∈ col -> x ∈ train ++ test) ->
  let mapped := series_map (item_mapping train test) col in
  length mapped = length col
  /\ Forall is_Some mapped
  /\ (forall i old, col !! i = Some old ->
        exists new, mapped !! i = Some (Some new)
                    /\ 0 <= new < Z.of_nat (length (all_items train test))
                    /\ all_items train test !! Z.to_nat new = Some old)
  /\ (forall i j, mapped !! i = mapped !! j <-> col !! i = col !! j).
Proof.
  intros Hcol mapped. subst mapped. unfold series_map.
  assert (Hsome : forall old, old ∈ col ->
            exists new, item_mapping train test !! old = Some new
                        /\ 0 <= new < Z.of_nat (length (all_items train test))
                        /\ all_items train test !! Z.to_nat new = Some old).
  { intros old Hold.
    destruct (item_mapping_total train test old (Hcol old Hold))
      as (new & Hnew & Hrange).
    exists new. split; [done|]. split; [done|].
    by apply item_mapping_lookup in Hnew as [_ Hnew]. }
  split; [apply length_fmap|]. split; [|split].
  - apply Forall_forall. intros o Ho.
    apply list_elem_of_fmap in Ho as (old & -> & Hold).
    destruct (Hsome old Hold) as (new & -> & _). by eexists.
  - intros i old Hi.
    destruct (Hsome old (list_elem_of_lookup_2 _ _ _ Hi)) as (new & Hnew & Hr).
    exists new. split; [|done]. by rewrite list_lookup_fmap, Hi; simpl; f_equal.
  - intros i j. rewrite !list_lookup_fmap.
    destruct (col !! i) as [x|] eqn:Hi, (col !! j) as [y|] eqn:Hj;
      simpl; split; try done.
    + intros [= Heq].
      destruct (Hsome x (list_elem_of_lookup_2 _ _ _ Hi)) as (new & Hnew & _).
      f_equal. eapply item_mapping_inj; [exact Hnew | congruence].
    + by intros [= ->].
Qed.

Lemma series_map_reindexes_witness :
  let mapped := series_map (item_mapping [10; 30; 10] [20; 30]) [20; 30] in
  length mapped = 2%nat
  /\ Forall is_Some mapped
  /\ (forall i old, [20; 30] !! i = Some old ->
        exists new, mapped !! i = Some (Some new)
                    /\ 0 <= new
                       < Z.of_nat (length (all_items [10; 30; 10] [20; 30]))
                    /\ all_items [10; 30; 10] [20; 30] !! Z.to_nat new
                       = Some old)
  /\ (forall i j, mapped !! i = mapped !! j <-> [20; 30] !! i = [20; 30] !! j).
Proof.
  apply (series_map_reindexes [10; 30; 10] [20; 30] [20; 30]).
  intros x Hx. apply elem_of_app. by right.
Defined.

End ReindexMore.

(** * The store built from the rows of the test split *)

Section StoreFacts.
Import Env Store.
Implicit Types (rows : list row) (r : row).

Lemma group_items_lookup rows u :
  group_items rows !! u
  = if decide (u ∈ user_idx <$> rows)
    then Some (list_to_set (item_idx <$> filter (fun r => user_idx r = u) rows))
    else None.
Proof.
  unfold group_items.
  set (f := fun u : Z =>
         (u, list_to_set (item_idx <$> filter (fun r => user_idx r = u) rows)
             : gset Z)).
  assert (Hkeys : (f <$> Reindex.unique (user_idx <$> rows)).*1
                  = Reindex.unique (user_idx <$> rows)).
  { rewrite <- list_fmap_compose. apply list_fmap_id. }
  destruct (decide (u ∈ user_idx <$> rows)) as [Hin|Hin].
  - apply elem_of_list_to_map; [rewrite Hkeys; apply NoDup_unique|].
    apply list_elem_of_fmap. exists u. split; [done|].
    by apply elem_of_unique.
  - apply not_elem_of_list_to_map. rewrite Hkeys.
    by rewrite elem_of_unique.
Qed.

Lemma ratings_dict_snoc rows r :
  ratings_dict (rows ++ [r])
  = <[(user_idx r, item_idx r) := overall r]> (ratings_dict rows).
Proof. unfold ratings_dict. by rewrite foldl_app. Qed.

Lemma ratings_dict_lookup rows key q :
  ratings_dict rows !! key = Some q
  <-> exists pre r post,
        rows = pre ++ r :: post
        /\ (user_idx r, item_idx r) = key /\ overall r = q
        /\ Forall (fun r' => (user_idx r', item_idx r') <> key) post.
Proof.
  revert q. induction rows as [|r rows IH] using rev_ind; intros q.
  - change (ratings_dict []) with (∅ : gmap (Z * Z) Q).
    split; [by rewrite lookup_empty|].
    intros (pre & r & post & Heq & _). by destruct pre.
  - rewrite ratings_dict_snoc.
    destruct (decide ((user_idx r, item_idx r) = key)) as [Hkey|Hkey].
    + rewrite <- Hkey, lookup_insert_eq. split.
      * intros [= <-]. exists rows, r, []. by rewrite Hkey.
      * intros (pre & r' & post & Heq & Hk & Hq & Hpost).
        destruct post as [|p post _] using rev_ind.
        -- apply app_inj_tail in Heq as [_ <-]. by rewrite Hq.
        -- rewrite app_comm_cons, (assoc_L (++)) in Heq.
           apply app_inj_tail in Heq as [_ <-].
           apply Forall_app in Hpost as [_ Hp].
           apply Forall_inv in Hp. simpl in Hp. contradiction.
    + rewrite lookup_insert_ne by done. rewrite IH. split.
      * intros (pre & r' & post & -> & Hk & Hq & Hpost).
        exists pre, r', (post ++ [r]).
        split; [by rewrite <- (assoc_L (++))|]. split; [done|].
        split; [done|]. apply Forall_app. split; [done|].
        by apply Forall_singleton.
      * intros (pre & r' & post & Heq & Hk & Hq & Hpost).
        destruct post as [|p post _] using rev_ind.
        -- apply app_inj_tail in Heq as [_ <-]. congruence.
        -- rewrite app_comm_cons, (assoc_L (++)) in Heq.
           apply app_inj_tail in Heq as [-> <-].
           apply Forall_app in Hpost as [Hpost _].
           by exists pre, r', post.
Qed.

Lemma ratings_dict_is_Some rows u i :
  is_Some (ratings_dict rows !! (u, i))
  <-> exists r, r ∈ rows /\ user_idx r = u /\ item_idx r = i.
Proof.
  induction rows as [|r rows IH] using rev_ind.
  - change (ratings_dict []) with (∅ : gmap (Z * Z) Q).
    rewrite lookup_empty. split; [by intros [? ?]|].
    intros (r & Hr & _). by apply elem_of_nil in Hr.
  - rewrite ratings_dict_snoc.
    destruct (decide ((user_idx r, item_idx r) = (u, i))) as [Hkey|Hkey].
    + rewrite Hkey, lookup_insert_eq. split; [intros _|by eexists].
      injection Hkey as <- <-. exists r. split; [|done].
      apply elem_of_app. right. apply list_elem_of_here.
    + rewrite lookup_insert_ne, IH by done. split.
      * intros (r' & Hr' & Hu). exists r'. split; [|done].
        apply elem_of_app. by left.
      * intros (r' & Hr' & Hu & Hi).
        apply elem_of_app in Hr' as [Hr'|Hr']; [by exists r'|].
        apply list_elem_of_singleton in Hr' as ->. congruence.
Qed.

End StoreFacts.

Section StoreTheorems.
Import Env Store.
Implicit Types (rows : list row) (r : row).

Lemma group_items_elem rows u i :
  i ∈ default ∅ (group_items rows !! u)
  <-> exists r, r ∈ rows /\ user_idx r = u /\ item_idx r = i.
Proof.
  rewrite group_items_lookup.
  destruct (decide (u ∈ user_idx <$> rows)) as [Hin|Hin]; simpl.
  - rewrite elem_of_list_to_set, list_elem_of_fmap. split.
    + intros (r & -> & Hr). apply list_elem_of_filter in Hr as [Hu Hr].
      by exists r.
    + intros (r & Hr & Hu & <-). exists r. split; [done|].
      by apply list_elem_of_filter.
  - split; [set_solver|]. intros (r & Hr & <- & _).
    destruct Hin. by apply list_elem_of_fmap_2.
Qed.

Lemma group_items_nonempty rows u items :
  group_items rows !! u = Some items -> items <> ∅.
Proof.
  rewrite group_items_lookup.
  destruct (decide (u ∈ user_idx <$> rows)) as [Hin|Hin]; [|done].
  intros [= <-]. apply list_elem_of_fmap in Hin as (r & -> & Hr).
  assert (item_idx r ∈ (list_to_set
            (item_idx <$> filter (fun r' => user_idx r' = user_idx r) rows)
            : gset Z)); [|set_solver].
  apply elem_of_list_to_set, list_elem_of_fmap_2.
  by apply list_elem_of_filter.
Qed.

(** The two dictionaries built from the same rows agree: a user is a key
    of the interactions exactly when a row has that user, a stored set is
    never empty, an item is in the set of a user exactly when a row holds
    that pair, and exactly when the pair has a rating. *)
Theorem store_consistent rows u i :
  (is_Some (group_items rows !! u) <-> u ∈ user_idx <$> rows)
  /\ (forall items, group_items rows !! u = Some items -> items <> ∅)
  /\ (i ∈ default ∅ (group_items rows !! u)
      <-> exists r, r ∈ rows /\ user_idx r = u /\ item_idx r = i)
  /\ (i ∈ default ∅ (group_items rows !! u)
      <-> is_Some (ratings_dict rows !! (u, i))).
Proof.
  split; [|split; [|split]].
  - rewrite group_items_lookup.
    destruct (decide (u ∈ user_idx <$> rows)) as [Hin|Hin]; split; intros H;
      try done; try (by eexists); by destruct H.
  - apply group_items_nonempty.
  - apply group_items_elem.
  - by rewrite group_items_elem, ratings_dict_is_Some.
Qed.

Lemma store_consistent_witness :
  group_items Fixture.rows !! 1 = Some {[ 2 ]}
  /\ (2 ∈ default ∅ (group_items Fixture.rows !! 1)
      <-> is_Some (ratings_dict Fixture.rows !! (1, 2))).
Proof.
  split; [by vm_compute|].
  apply (store_consistent Fixture.rows 1 2).
Defined.

(** The rating stored for a pair is the one of the last row with that
    pair. *)
Theorem ratings_dict_last_row rows u i q :
  ratings_dict rows !! (u, i) = Some q
  <-> exists pre r post,
        rows = pre ++ r :: post
        /\ (user_idx r, item_idx r) = (u, i) /\ overall r = q
        /\ Forall (fun r' => (user_idx r', item_idx r') <> (u, i)) post.
Proof. apply ratings_dict_lookup. Qed.

End StoreTheorems.

Lemma ratings_dict_last_row_witness :
  Store.ratings_dict Fixture.rows !! (1, 2) = Some 5%Q.
Proof.
  apply (ratings_dict_last_row Fixture.rows 1 2 5%Q).
  exists [ {| Store.user_idx := 1; Store.item_idx := 2; Store.overall := 4%Q |};
           {| Store.user_idx := 2; Store.item_idx := 0; Store.overall := 3%Q |} ],
    {| Store.user_idx := 1; Store.item_idx := 2; Store.overall := 5%Q |}, [].
  repeat split. constructor.
Defined.

(** * Further properties of the environment *)

Section EnvMore.
Import Env.
Implicit Types (env : AmazonEnv) (st : EnvState).



(** [reset] draws among the distinct users: each user of the column is
    returned for exactly one residue of the draw modulo the number of
    distinct users, however many rows the user has. *)
Theorem reset_uniform_over_users env user :
  user ∈ df_user_idx env ->
  let n := length (Reindex.unique (df_user_idx env)) in
  exists i, (i < n)%nat
    /\ forall draw,
         (exists state,
            reset env draw
            = Returns ({| current_user := Some user; history := [] |}, state))
         <-> (draw `mod` n = i)%nat.
Proof.
  intros Hin n.
  apply elem_of_unique, list_elem_of_lookup in Hin as [i Hi].
  exists i. split; [by apply lookup_lt_Some in Hi|].
  intros draw. unfold reset, random_choice. simpl. fold n.
  split.
  - intros [state Hret].
    destruct (Reindex.unique (df_user_idx env) !! (draw `mod` n)%nat)
      as [u|] eqn:Hu; simpl in Hret; [|done].
    injection Hret as -> _.
    exact (NoDup_lookup _ _ _ _ (NoDup_unique _) Hu Hi).
  - intros Hmod. rewrite Hmod, Hi. simpl. by eexists.
Qed.

Lemma reset_uniform_over_users_witness :
  exists i, (i < 2)%nat
    /\ forall draw,
         (exists state,
            reset Sample.env_5_10 draw
            = Returns ({| current_user := Some 2; history := [] |}, state))
         <-> (draw `mod` 2 = i)%nat.
Proof.
  apply (reset_uniform_over_users Sample.env_5_10 2).
  apply (bool_decide_unpack _). by vm_compute.
Defined.

(** [step] before any [reset]: it does not raise; whatever the action, the
    reward is the penalty, the pair is still appended to the history, and
    the first cell of the observation is NaN. *)
Theorem step_before_reset env st action :
  current_user st = None ->
  exists state done,
    step env st action
    = Returns ({| current_user := None;
                  history := history st ++ [(action, penalty)] |},
               (state, penalty, done))
    /\ state !! 0%nat = Some NaN.
Proof.
  intros Hnone.
  destruct (step_returns env st action) as (state & Hret & Hhead).
  unfold step_history, step_reward, lookup_rating in Hret.
  rewrite Hnone in Hret, Hhead. simpl in Hret.
  by eexists state, _.
Qed.

Lemma step_before_reset_witness :
  exists state done,
    step Sample.env_5_10 initial_state 2
    = Returns ({| current_user := None; history := [] ++ [(2, penalty)] |},
               (state, penalty, done))
    /\ state !! 0%nat = Some NaN.
Proof. apply (step_before_reset Sample.env_5_10 initial_state 2). reflexivity. Defined.

End EnvMore.

Section EnvInvariants.
Import Env.
Implicit Types (env : AmazonEnv) (st : EnvState).




(** [step] does not guard against calls after the end of the episode:
    once a call has returned [done = True], every later call returns as
    well, again with [done = True], and the history keeps growing. *)
Theorem done_stays_true env st action st1 state1 reward1 action' :
  step env st action = Returns (st1, (state1, reward1, true)) ->
  exists st2 state2 reward2,
    step env st1 action' = Returns (st2, (state2, reward2, true))
    /\ history st2 = history st1 ++ [(action', reward2)]
    /\ M env < Z.of_nat (length (history st2)).
Proof.
  intros Hstep.
  destruct (step_returns env st action) as (s1 & Hret1 & _).
  rewrite Hret1 in Hstep. injection Hstep as <- _ _ Hdone.
  apply Z.leb_le in Hdone.
  destruct (step_returns env
              {| current_user := current_user st;
                 history := step_history env st action |} action')
    as (s2 & Hret2 & _).
  eexists _, s2, _. rewrite Hret2.
  pose proof (step_history_length env
                {| current_user := current_user st;
                   history := step_history env st action |} action') as Hlen.
  simpl in Hlen.
  assert (Hd : (M env <=? Z.of_nat (length (step_history env
                  {| current_user := current_user st;
                     history := step_history env st action |} action')))
               = true)
    by (apply Z.leb_le; lia).
  rewrite Hd. split; [done|]. split; [done|]. simpl. lia.
Qed.

Lemma done_stays_true_witness :
  exists st2 state2 reward2,
    step Sample.env_5_0 {| current_user := Some 1; history := [(2, 5%Q)] |} 7
    = Returns (st2, (state2, reward2, true))
    /\ history st2
       = history {| current_user := Some 1; history := [(2, 5%Q)] |}
           ++ [(7, reward2)]
    /\ M Sample.env_5_0 < Z.of_nat (length (history st2)).
Proof.
  apply (done_stays_true Sample.env_5_0 Sample.started 2
           {| current_user := Some 1; history := [(2, 5%Q)] |}
           (window_observation 5 1 [(2, 5%Q)]) 5%Q 7).
  reflexivity.
Defined.

End EnvInvariants.

Section SpaceFacts.
Import Env Space.
Implicit Types (env : AmazonEnv) (st : EnvState).

Lemma window_observation_last n user (h : list (Z * Q)) entry :
  (0 < n)%nat ->
  last (window_observation n user (h ++ [entry])) = Some (Num entry.2).
Proof.
  intros Hn. unfold window_observation.
  rewrite length_app. simpl.
  set (w := (n `min` (length h + 1))%nat).
  assert (Hdrop : exists pre, drop (length h + 1 - w) (h ++ [entry])
                              = pre ++ [entry]).
  { exists (drop (length h + 1 - w) h).
    rewrite drop_app_le by (subst w; lia). done. }
  destruct Hdrop as [pre ->].
  rewrite !fmap_app. simpl.
  rewrite !(assoc_L (++)), app_comm_cons. apply last_snoc.
Qed.

(** The declared bounds have one entry per cell of an observation. *)
Lemma observation_high_length env :
  0 <= N env -> Z.of_nat (length (observation_high env)) = observation_space_shape env.
Proof.
  intros HN. unfold observation_high, observation_space_shape.
  unfold repeat_list.
  rewrite length_fmap, !length_app, !length_replicate. simpl. lia.
Qed.

(** The observation returned after an action without a rating leaves the
    declared [observation_space]: its last reward cell is the penalty -0.1,
    below the lower bound 0 of the box. *)
Theorem penalty_leaves_observation_space env st action user :
  1 <= N env -> current_user st = Some user ->
  user_ratings env !! (user, action) = None ->
  exists st' state done,
    step env st action = Returns (st', (state, penalty, done))
    /\ last state = Some (Num penalty)
    /\ (penalty < observation_low)%Q
    /\ ~ within_bounds env state.
Proof.
  intros HN Hu Hnone.
  pose proof (step_observation env st action user HN Hu) as Hstep.
  assert (Hr : step_reward env st action = penalty).
  { unfold step_reward, lookup_rating. by rewrite Hu, Hnone. }
  rewrite Hr in Hstep.
  assert (Hlast : last (window_observation (Z.to_nat (N env)) user
                          (step_history env st action)) = Some (Num penalty)).
  { unfold step_history. rewrite Hr.
    by rewrite window_observation_last by lia. }
  eexists _, _, _. split; [exact Hstep|]. split; [exact Hlast|].
  split; [done|].
  intros Hin. unfold within_bounds in Hin.
  destruct (window_observation (Z.to_nat (N env)) user
              (step_history env st action)) as [|c l _] using rev_ind;
    [done|].
  rewrite last_snoc in Hlast. injection Hlast as ->.
  apply Forall2_app_inv_l in Hin as (k1 & k2 & _ & Hc & _).
  apply Forall2_cons_inv_l in Hc as (hi & k2' & [Hlow _] & _).
  unfold observation_low, penalty in Hlow. by apply Hlow.
Qed.

Lemma penalty_leaves_observation_space_witness :
  exists st' state done,
    step Sample.env_5_10 Sample.started 1
    = Returns (st', (state, penalty, done))
    /\ last state = Some (Num penalty)
    /\ (penalty < observation_low)%Q
    /\ ~ within_bounds Sample.env_5_10 state.
Proof.
  apply (penalty_leaves_observation_space Sample.env_5_10 Sample.started 1 1).
  - simpl. lia.
  - reflexivity.
  - reflexivity.
Defined.

End SpaceFacts.

(** * Further properties of the agent *)

Section AgentMore.
Import Env Agent.
Implicit Types (agent : DQNAgent) (state : list cell) (d : draws).

Lemma first_maximum_bound scores a :
  first_maximum scores a -> 0 <= a < Z.of_nat (length scores).
Proof.
  intros (Ha & v & Hv & _). apply lookup_lt_Some in Hv. lia.
Qed.

(** For a user without relevant items (no entry of [user_interactions],
    or an empty set) the draws play no role: [select_action] returns the
    first maximum of the scores, an index below the number of scores. *)
Theorem select_action_unknown_user agent state user d :
  state !! 0%nat = Some (cell_of_int user) ->
  policy_net agent state <> [] ->
  default ∅ (user_interactions (env agent) !! user) = ∅ ->
  exists action,
    select_action agent state d = Returns (action, agent)
    /\ first_maximum (policy_net agent state) action
    /\ 0 <= action < Z.of_nat (length (policy_net agent state))
    /\ forall d', select_action agent state d' = Returns (action, agent).
Proof.
  intros Hhead Hscores Hknown.
  destruct (argmax_first_maximum _ Hscores) as (a & Ha & Hmax).
  assert (Hsel : forall d', select_action agent state d' = Returns (a, agent)).
  { intros d'. rewrite (select_action_unfold _ _ _ user) by done. cbv zeta.
    rewrite Hknown, bool_decide_eq_false_2 by (intros Hne; by apply Hne).
    simpl. by rewrite Ha. }
  exists a. split; [apply Hsel|]. split; [done|].
  split; [by apply first_maximum_bound | done].
Qed.

Lemma select_action_unknown_user_witness :
  exists action,
    select_action (Sample.agent_of Sample.env_5_10)
      [cell_of_int 9; cell_of_int 0] Sample.explore
    = Returns (action, Sample.agent_of Sample.env_5_10)
    /\ first_maximum [(1 # 2)%Q; 2%Q; 2%Q] action
    /\ 0 <= action < 3
    /\ forall d', select_action (Sample.agent_of Sample.env_5_10)
                    [cell_of_int 9; cell_of_int 0] d'
                  = Returns (action, Sample.agent_of Sample.env_5_10).
Proof.
  apply (select_action_unknown_user (Sample.agent_of Sample.env_5_10)
           [cell_of_int 9; cell_of_int 0] 9 Sample.explore).
  - reflexivity.
  - discriminate.
  - by vm_compute.
Defined.

Lemma select_action_nan agent rest d :
  select_action agent (NaN :: rest) d = Raises ValueError.
Proof. done. Qed.

(** How [select_action] fails: on an empty state vector with [IndexError],
    on a state vector that starts with NaN (the observation of a [step]
    made before [reset]) with [ValueError], and when the network returns no
    score with [RuntimeError], whatever the draws, since the maximal score
    is computed before the exploration test. *)
Theorem select_action_raises agent d :
  select_action agent [] d = Raises IndexError
  /\ (forall rest, select_action agent (NaN :: rest) d = Raises ValueError)
  /\ (forall state q,
        state !! 0%nat = Some (Num q) -> policy_net agent state = [] ->
        select_action agent state d = Raises RuntimeError).
Proof.
  split; [done|]. split; [intros rest; apply select_action_nan|].
  intros state q Hhead Hscores. unfold select_action.
  rewrite Hhead, Hscores. done.
Qed.

Lemma select_action_raises_witness :
  select_action
    {| env := Sample.env_5_10; Agent.num_items := 0; epsilon := 0%Q;
       policy_net := fun _ => [] |}
    [cell_of_int 1] Sample.explore
  = Raises RuntimeError.
Proof.
  destruct (select_action_raises
              {| env := Sample.env_5_10; Agent.num_items := 0; epsilon := 0%Q;
                 policy_net := fun _ => [] |} Sample.explore) as (_ & _ & H).
  apply (H [cell_of_int 1] (inject_Z 1)); reflexivity.
Defined.

(** [step] before [reset] followed by [select_action] on the observation
    it returns: the selection raises [ValueError]. *)
Theorem select_action_after_step_before_reset agent e st action d :
  current_user st = None ->
  exists st' state reward done,
    step e st action = Returns (st', (state, reward, done))
    /\ select_action agent state d = Raises ValueError.
Proof.
  intros Hnone.
  destruct (step_returns e st action) as (state & Hret & Hhead).
  rewrite Hnone in Hhead. simpl in Hhead.
  eexists _, state, _, _. split; [exact Hret|].
  destruct state as [|c rest]; [done|]. injection Hhead as ->.
  apply select_action_nan.
Qed.

End AgentMore.

Section ExploreReward.
Import Env Agent Store.
Implicit Types (agent : DQNAgent) (state : list cell) (d : draws).

Lemma select_action_after_step_before_reset_witness :
  exists st' state reward done,
    step Sample.env_5_10 initial_state 2 = Returns (st', (state, reward, done))
    /\ select_action (Sample.agent_of Sample.env_5_10) state Sample.exploit
       = Raises ValueError.
Proof.
  apply (select_action_after_step_before_reset
           (Sample.agent_of Sample.env_5_10) Sample.env_5_10 initial_state 2
           Sample.exploit).
  reflexivity.
Defined.

(** With the store built from the rows of the test split, the current user
    of an episode always has relevant items, so exploration depends on the
    draw alone; and when it fires, the chosen item has a rating for that
    user: the following [step] pays the rating of a row, never the
    penalty. *)
Theorem explore_reward_is_rating rows items n m agent st state d user :
  env agent = env_of_rows rows items n m ->
  user ∈ user_idx <$> rows ->
  current_user st = Some user ->
  state !! 0%nat = Some (cell_of_int user) ->
  policy_net agent state <> [] ->
  (uniform d < 3 # 4)%Q ->
  exists action reward st' state' done,
    select_action agent state d = Returns (action, agent)
    /\ step (env_of_rows rows items n m) st action
       = Returns (st', (state', reward, done))
    /\ ratings_dict rows !! (user, action) = Some reward
    /\ exists r, r ∈ rows /\ user_idx r = user /\ item_idx r = action
                 /\ overall r = reward.
Proof.
  intros Henv Huser Hu Hhead Hscores Hdraw.
  set (known := default ∅ (group_items rows !! user)).
  assert (Hne : known <> ∅).
  { subst known. rewrite group_items_lookup.
    destruct (decide (user ∈ user_idx <$> rows)) as [Hin|Hin]; [|done].
    simpl. eapply group_items_nonempty. rewrite group_items_lookup.
    by rewrite decide_True by done. }
  destruct (random_choice_elements known (pick d) IndexError Hne)
    as (a & Hchoice & Hin & _).
  assert (Hsel : select_action agent state d = Returns (a, agent)).
  { rewrite (select_action_unfold _ _ _ user) by done. cbv zeta.
    rewrite Henv. simpl. fold known.
    rewrite bool_decide_eq_true_2 by done.
    apply Qlt_bool_true in Hdraw. rewrite Hdraw. simpl. by rewrite Hchoice. }
  subst known.
  apply group_items_elem in Hin as Hrow.
  assert (Hsome : is_Some (ratings_dict rows !! (user, a)))
    by (by apply ratings_dict_is_Some).
  destruct Hsome as [q Hq].
  destruct (step_returns (env_of_rows rows items n m) st a)
    as (state' & Hret & _).
  assert (Hr : step_reward (env_of_rows rows items n m) st a = q).
  { unfold step_reward, lookup_rating. rewrite Hu. simpl. by rewrite Hq. }
  rewrite Hr in Hret.
  exists a, q. eexists _, state', _. split; [done|]. split; [exact Hret|].
  split; [done|].
  apply ratings_dict_lookup in Hq as (pre & r & post & -> & [= <- <-] & <- & _).
  exists r. split; [|done]. apply elem_of_app. right. apply list_elem_of_here.
Qed.

Lemma explore_reward_is_rating_witness :
  exists action reward st' state' done,
    select_action (Sample.agent_of Fixture.env_rows)
      [cell_of_int 1] Sample.explore
    = Returns (action, Sample.agent_of Fixture.env_rows)
    /\ step Fixture.env_rows Sample.started action
       = Returns (st', (state', reward, done))
    /\ ratings_dict Fixture.rows !! (1, action) = Some reward
    /\ exists r, r ∈ Fixture.rows /\ user_idx r = 1 /\ item_idx r = action
                 /\ overall r = reward.
Proof.
  apply (explore_reward_is_rating Fixture.rows 3 5 2
           (Sample.agent_of Fixture.env_rows) Sample.started
           [cell_of_int 1] Sample.explore 1).
  - reflexivity.
  - apply (bool_decide_unpack _). by vm_compute.
  - reflexivity.
  - reflexivity.
  - discriminate.
  - by vm_compute.
Defined.

End ExploreReward.

(** * Further properties of the episode loop *)

Section EpisodeMore.
Import Env Agent.
Implicit Types (e : AmazonEnv) (agent : DQNAgent) (st : EnvState).

(** The loop from any state of an episode: it makes
    [max(M - len(history), 1)] further calls of [step], no fewer and no
    more, and keeps the books of what these calls return. *)
Lemma episode_loop_exact e agent rng user :
  (forall s, policy_net agent s <> []) ->
  forall fuel st state recommended total,
    current_user st = Some user ->
    state !! 0%nat = Some (cell_of_int user) ->
    let need := Z.to_nat (Z.max (M e - Z.of_nat (length (history st))) 1) in
    ((need <= fuel)%nat ->
       exists ep new,
         episode_loop fuel e agent rng st state recommended total
         = Some (Returns ep)
         /\ length new = need
         /\ history (final_state ep) = history st ++ new
         /\ recommended_items ep = recommended ++ new.*1
         /\ total_reward ep = foldl Qplus total new.*2
         /\ current_user (final_state ep) = Some user
         /\ last_observation ep !! 0%nat = Some (cell_of_int user))
    /\ ((fuel < need)%nat ->
          episode_loop fuel e agent rng st state recommended total = None).
Proof.
  intros Hscores.
  induction fuel as [|fuel IH]; intros st state recommended total Hu Hhead need.
  { split; [lia | done]. }
  rewrite episode_loop_S.
  destruct (select_action_returns agent state (rng (length recommended))
              user Hhead (Hscores state)) as [a ->].
  destruct (step_returns e st a) as (state' & Hret & Hhead').
  rewrite Hret. rewrite Hu in Hhead'. simpl in Hhead'.
  pose proof (step_history_length e st a) as Hlen.
  destruct (Z.leb_spec (M e) (Z.of_nat (length (step_history e st a))))
    as [Hdone|Hmore].
  - assert (need = 1%nat) as -> by (subst need; lia).
    split; [intros _|lia].
    eexists _, [(a, step_reward e st a)]. split; [reflexivity|].
    simpl. by rewrite Hu.
  - specialize (IH {| current_user := current_user st;
                      history := step_history e st a |} state'
                   (recommended ++ [a]) (total + step_reward e st a)%Q
                   Hu Hhead').
    simpl in IH. rewrite Hlen in IH.
    replace (Z.to_nat (Z.max (M e - Z.of_nat (S (length (history st)))) 1))
      with (need - 1)%nat in IH by (subst need; lia).
    destruct IH as [IHsome IHnone].
    assert (2 <= need)%nat by (subst need; lia).
    split.
    + intros Hfuel.
      destruct IHsome as (ep & new & Hloop & Hnew & Hhist & Hrec & Htot & Hfin);
        [lia|].
      exists ep, ((a, step_reward e st a) :: new).
      split; [done|]. split; [simpl; lia|].
      unfold step_history in Hhist.
      split; [by rewrite Hhist, <- (assoc_L (++))|].
      split; [by rewrite Hrec, <- (assoc_L (++))|]. done.
    + intros Hfuel. apply IHnone. lia.
Qed.

(** The number of steps of an episode of [evaluate_agent], for every
    episode length [M]: exactly [max(M, 1)], since the loop makes a first
    call of [step] before it looks at [done].  With less fuel than that
    the model of the loop gives no result, with at least that much it
    returns the episode. *)
Theorem episode_length e agent user_draw rng fuel :
  df_user_idx e <> [] ->
  (forall s, policy_net agent s <> []) ->
  let need := Z.to_nat (Z.max (M e) 1) in
  ((fuel < need)%nat -> run_episode fuel e agent user_draw rng = None)
  /\ ((need <= fuel)%nat ->
      exists ep,
        run_episode fuel e agent user_draw rng = Some (Returns ep)
        /\ length (recommended_items ep) = need
        /\ length (history (final_state ep)) = need).
Proof.
  intros Hne Hscores need.
  destruct (reset_nonempty e user_draw Hne) as (st0 & state0 & Hreset).
  unfold run_episode. rewrite Hreset.
  destruct (reset_returns e user_draw st0 state0 Hreset)
    as (user & _ & -> & ->).
  destruct (episode_loop_exact e agent rng user Hscores fuel
              {| current_user := Some user; history := [] |}
              ([cell_of_int user]
                 ++ replicate (Z.to_nat (N e)) (cell_of_int 0)
                 ++ replicate (Z.to_nat (N e)) (cell_of_int 0))
              [] 0%Q eq_refl eq_refl) as [Hsome Hnone].
  simpl in Hsome, Hnone. rewrite Z.sub_0_r in Hsome, Hnone. fold need in Hsome, Hnone.
  split; [exact Hnone|].
  intros Hfuel.
  destruct (Hsome Hfuel) as (ep & new & Hloop & Hnew & Hhist & Hrec & _).
  exists ep. split; [done|].
  rewrite Hrec, Hhist. simpl. by rewrite length_fmap.
Qed.

Lemma episode_length_witness :
  run_episode 0 Sample.env_5_0 (Sample.agent_of Sample.env_5_0) 0
    (fun _ => Sample.exploit) = None
  /\ exists ep,
       run_episode 1 Sample.env_5_0 (Sample.agent_of Sample.env_5_0) 0
         (fun _ => Sample.exploit) = Some (Returns ep)
       /\ length (recommended_items ep) = 1%nat
       /\ length (history (final_state ep)) = 1%nat.
Proof.
  split.
  - apply (episode_length Sample.env_5_0 (Sample.agent_of Sample.env_5_0) 0
             (fun _ => Sample.exploit) 0); [discriminate | discriminate |].
    simpl. lia.
  - apply (episode_length Sample.env_5_0 (Sample.agent_of Sample.env_5_0) 0
             (fun _ => Sample.exploit) 1); [discriminate | discriminate |].
    simpl. lia.
Defined.



End EpisodeMore.

(** * The evaluation loop *)

Section EvaluateFacts.
Import Env Agent Evaluate Metrics.
Implicit Types (e : AmazonEnv) (agent : DQNAgent) (ks : list Z).

Lemma metric_values_in_unit recommended relevant k :
  in_unit (precision_at_k recommended relevant k)
  /\ in_unit (recall_at_k recommended relevant k).
Proof.
  unfold in_unit. rewrite precision_at_k_unfold, recall_at_k_unfold.
  pose proof (position_count_le_length relevant (first_k recommended k)).
  pose proof (distinct_count_le_position_count relevant (first_k recommended k)).
  pose proof (distinct_count_le_relevant relevant (first_k recommended k)).
  assert (Hzero : (0 <= 0)%Q /\ (0 <= 1)%Q) by (split; unfold Qle; simpl; lia).
  split.
  - destruct (Z.ltb_spec 0 k); [|done].
    pose proof (first_k_length_le recommended k ltac:(lia)).
    apply ratio_in_unit_interval; lia.
  - destruct (Z.ltb_spec 0 (Z.min (Z.of_nat (length relevant)) k)); [|done].
    pose proof (first_k_length_le recommended k ltac:(lia)).
    apply ratio_in_unit_interval; lia.
Qed.

Lemma foldl_Qplus_bounds l a :
  Forall in_unit l ->
  (a <= foldl Qplus a l)%Q
  /\ (foldl Qplus a l <= a + inject_Z (Z.of_nat (length l)))%Q.
Proof.
  intros Hl. revert a. induction Hl as [|q l [Hq0 Hq1] Hl IH]; intros a.
  - simpl. split; [apply Qle_refl|]. rewrite Qplus_0_r. apply Qle_refl.
  - simpl foldl. destruct (IH (a + q)%Q) as [IH0 IH1]. split.
    + eapply Qle_trans; [|exact IH0].
      rewrite <- (Qplus_0_r a) at 1. by apply Qplus_le_compat; [apply Qle_refl|].
    + eapply Qle_trans; [exact IH1|].
      replace (Z.of_nat (length (q :: l))) with (1 + Z.of_nat (length l))
        by (simpl length; lia).
      rewrite inject_Z_plus, Qplus_assoc.
      apply Qplus_le_compat; [|apply Qle_refl].
      apply Qplus_le_compat; [apply Qle_refl | exact Hq1].
Qed.

Lemma np_mean_in_unit l :
  l <> [] -> Forall in_unit l -> exists q, np_mean l = Num q /\ in_unit q.
Proof.
  intros Hne Hl. destruct l as [|x l']; [done|].
  eexists. split; [reflexivity|].
  destruct (foldl_Qplus_bounds (x :: l') 0%Q Hl) as [H0 H1].
  rewrite Qplus_0_l in H1. fold (Qsum (x :: l')) in H0, H1.
  assert (Hpos : (0 < inject_Z (Z.of_nat (length (x :: l'))))%Q)
    by (unfold Qlt; simpl; lia).
  split.
  - apply Qle_shift_div_l; [done|]. by rewrite Qmult_0_l.
  - apply Qle_shift_div_r; [done|]. by rewrite Qmult_1_l.
Qed.

Lemma insert_fold_lookup ks (m : gmap Z (list Q)) k :
  foldl (fun m k => <[k := []]> m) m ks !! k
  = if decide (k ∈ ks) then Some [] else m !! k.
Proof.
  revert m. induction ks as [|k0 ks IH]; intros m.
  - destruct (decide (k ∈ [])) as [H|H]; [by apply elem_of_nil in H | done].
  - simpl foldl. rewrite IH.
    destruct (decide (k ∈ ks)) as [Hin|Hin],
      (decide (k ∈ k0 :: ks)) as [Hin'|Hin']; try done.
    + destruct Hin'. by right.
    + apply elem_of_cons in Hin' as [->|?]; [|done].
      by rewrite lookup_insert_eq.
    + rewrite lookup_insert_ne; [done|]. intros ->. destruct Hin'. by left.
Qed.

Lemma empty_scores_invariant ks : scores_invariant ks (empty_scores ks) 0.
Proof.
  intros k. unfold empty_scores. rewrite insert_fold_lookup, lookup_empty.
  destruct (decide (k ∈ ks)) as [Hin|Hin]; split; intros Hk; try done.
  exists []. split; [done|]. split; [constructor|]. split; [done | lia].
Qed.

(** The loop [for k in k_values] on one of the two dictionaries. *)
Lemma append_fold_lookup (f : Z -> Q) ks (m : gmap Z (list Q)) k :
  foldl (fun m k => append_score m k (f k)) m ks !! k
  = (fun l => l ++ replicate (length (filter (fun k' => k' = k) ks)) (f k))
      <$> m !! k.
Proof.
  revert m. induction ks as [|k0 ks IH]; intros m; simpl foldl.
  - simpl. destruct (m !! k); simpl; [|done]. by rewrite (right_id_L [] (++)).
  - rewrite IH. unfold append_score. rewrite filter_cons.
    destruct (decide (k0 = k)) as [->|Hne].
    + rewrite lookup_alter_eq. destruct (m !! k); simpl; [|done].
      by rewrite <- (assoc_L (++)).
    + by rewrite lookup_alter_ne.
Qed.

Lemma record_metrics_projections recommended relevant ks acc :
  precision_scores (record_metrics recommended relevant ks acc)
  = foldl (fun m k => append_score m k (precision_at_k recommended relevant k))
          (precision_scores acc) ks
  /\ recall_scores (record_metrics recommended relevant ks acc)
     = foldl (fun m k => append_score m k (recall_at_k recommended relevant k))
             (recall_scores acc) ks
  /\ total_rewards (record_metrics recommended relevant ks acc)
     = total_rewards acc.
Proof.
  unfold record_metrics. revert acc.
  induction ks as [|k ks IH]; intros acc; [done|]. simpl.
  destruct (IH {| precision_scores :=
                    append_score (precision_scores acc) k
                      (precision_at_k recommended relevant k);
                  recall_scores :=
                    append_score (recall_scores acc) k
                      (recall_at_k recommended relevant k);
                  total_rewards := total_rewards acc |}) as (-> & -> & ->).
  done.
Qed.

Lemma scores_invariant_step (f : Z -> Q) ks m j :
  (forall k, in_unit (f k)) ->
  scores_invariant ks m j ->
  scores_invariant ks (foldl (fun m k => append_score m k (f k)) m ks) (S j).
Proof.
  intros Hf Hinv k. rewrite append_fold_lookup.
  destruct (Hinv k) as [Hin Hout]. split; intros Hk.
  - destruct (Hin Hk) as (l & -> & Hl & _). simpl. eexists. split; [done|].
    split; [|split; [lia|intros _]].
    + apply Forall_app. split; [done|]. apply Forall_replicate. apply Hf.
    + destruct (filter (fun k' => k' = k) ks) as [|x l'] eqn:E.
      * assert (Hkin : k ∈ filter (fun k' => k' = k) ks)
          by (by apply list_elem_of_filter).
        rewrite E in Hkin. by apply elem_of_nil in Hkin.
      * simpl. by destruct l.
  - by rewrite (Hout Hk).
Qed.

End EvaluateFacts.

Section EvaluateTheorems.
Import Env Agent Evaluate Metrics.
Implicit Types (e : AmazonEnv) (agent : DQNAgent) (ks : list Z).

Lemma run_episode_returns e agent user_draw rng fuel :
  df_user_idx e <> [] ->
  (forall s, policy_net agent s <> []) ->
  (Z.to_nat (Z.max (M e) 1) <= fuel)%nat ->
  exists ep user,
    run_episode fuel e agent user_draw rng = Some (Returns ep)
    /\ last_observation ep !! 0%nat = Some (cell_of_int user).
Proof.
  intros Hne Hscores Hfuel.
  destruct (reset_nonempty e user_draw Hne) as (st0 & state0 & Hreset).
  unfold run_episode. rewrite Hreset.
  destruct (reset_returns e user_draw st0 state0 Hreset)
    as (user & _ & -> & ->).
  destruct (episode_loop_exact e agent rng user Hscores fuel
              {| current_user := Some user; history := [] |}
              ([cell_of_int user]
                 ++ replicate (Z.to_nat (N e)) (cell_of_int 0)
                 ++ replicate (Z.to_nat (N e)) (cell_of_int 0))
              [] 0%Q eq_refl eq_refl) as [Hsome _].
  simpl in Hsome. rewrite Z.sub_0_r in Hsome.
  destruct (Hsome Hfuel) as (ep & new & Hloop & _ & _ & _ & _ & _ & Hhead).
  by exists ep, user.
Qed.

Lemma evaluate_episodes_cons fuel e agent user_draw rng rest ks acc :
  evaluate_episodes fuel e agent ((user_draw, rng) :: rest) ks acc
  = match run_episode fuel e agent user_draw rng with
    | None => None
    | Some (Raises x) => Some (Raises x)
    | Some (Returns ep) =>
        match from_option Returns (Raises IndexError)
                (last_observation ep !! 0%nat) ≫= int_of_cell with
        | Raises x => Some (Raises x)
        | Returns user =>
            let acc' :=
              record_metrics (recommended_items ep)
                (elements (default ∅ (user_interactions e !! user))) ks acc in
            evaluate_episodes fuel e agent rest ks
              {| precision_scores := precision_scores acc';
                 recall_scores := recall_scores acc';
                 total_rewards := total_rewards acc' ++ [total_reward ep] |}
        end
    end.
Proof. reflexivity. Qed.

Lemma evaluate_episodes_returns e agent fuel ks :
  df_user_idx e <> [] ->
  (forall s, policy_net agent s <> []) ->
  (Z.to_nat (Z.max (M e) 1) <= fuel)%nat ->
  forall episodes acc j,
    scores_invariant ks (precision_scores acc) j ->
    scores_invariant ks (recall_scores acc) j ->
    length (total_rewards acc) = j ->
    exists acc',
      evaluate_episodes fuel e agent episodes ks acc = Some (Returns acc')
      /\ scores_invariant ks (precision_scores acc') (j + length episodes)
      /\ scores_invariant ks (recall_scores acc') (j + length episodes)
      /\ length (total_rewards acc') = (j + length episodes)%nat.
Proof.
  intros Hne Hscores Hfuel.
  induction episodes as [|[user_draw rng] rest IH]; intros acc j Hp Hr Ht.
  - exists acc. simpl. by rewrite Nat.add_0_r.
  - rewrite evaluate_episodes_cons.
    destruct (run_episode_returns e agent user_draw rng fuel Hne Hscores Hfuel)
      as (ep & user & -> & Hhead).
    rewrite Hhead. simpl from_option.
    change (Returns (cell_of_int user) ≫= int_of_cell)
      with (int_of_cell (cell_of_int user)).
    rewrite int_of_cell_of_int. cbv zeta.
    set (relevant := elements (default ∅ (user_interactions e !! user))).
    destruct (record_metrics_projections (recommended_items ep) relevant ks acc)
      as (Hps & Hrs & Hts).
    rewrite Hps, Hrs, Hts.
    match goal with
    | |- context [evaluate_episodes _ _ _ _ _ ?a] =>
        destruct (IH a (S j)) as (acc' & Heval & Hp' & Hr' & Ht')
    end.
    + simpl. apply scores_invariant_step; [|done].
      intros k. apply metric_values_in_unit.
    + simpl. apply scores_invariant_step; [|done].
      intros k. apply metric_values_in_unit.
    + simpl. rewrite length_app. simpl. lia.
    + exists acc'. split; [exact Heval|]. simpl length.
      by replace (j + S (length rest))%nat with (S j + length rest)%nat by lia.
Qed.

(** [evaluate_agent] on an environment with users and a scorer that gives
    scores, with fuel for the [max(M, 1)] steps of an episode: it returns a
    report whose two dictionaries have the keys of [k_values] and no other.
    After at least one episode every average precision and every average
    recall is a number of [0, 1] (for every [k] of [k_values], also a
    repeated or a non-positive one) and the average reward is a number;
    for [num_test_episodes <= 0] every average is NaN, the mean of no
    value. *)
Theorem evaluate_agent_report e agent fuel n draws_of ks :
  df_user_idx e <> [] ->
  (forall s, policy_net agent s <> []) ->
  (Z.to_nat (Z.max (M e) 1) <= fuel)%nat ->
  exists rep,
    evaluate_agent fuel e agent n draws_of ks = Some (Returns rep)
    /\ (forall k, k ∉ ks ->
          avg_precision rep !! k = None /\ avg_recall rep !! k = None)
    /\ (0 < n ->
        (forall k, k ∈ ks ->
           exists p r, avg_precision rep !! k = Some (Num p)
                       /\ avg_recall rep !! k = Some (Num r)
                       /\ in_unit p /\ in_unit r)
        /\ exists q, avg_reward rep = Num q)
    /\ (n <= 0 ->
        (forall k, k ∈ ks ->
           avg_precision rep !! k = Some NaN /\ avg_recall rep !! k = Some NaN)
        /\ avg_reward rep = NaN).
Proof.
  intros Hne Hscores Hfuel. unfold evaluate_agent.
  edestruct (evaluate_episodes_returns e agent fuel ks Hne Hscores Hfuel
               (draws_of <$> seq 0 (Z.to_nat n))
               {| precision_scores := empty_scores ks;
                  recall_scores := empty_scores ks;
                  total_rewards := [] |} 0%nat)
    as (acc & -> & Hp & Hr & Ht);
    [apply empty_scores_invariant | apply empty_scores_invariant | done |].
  rewrite length_fmap, length_seq in Hp, Hr, Ht. simpl in Hp, Hr, Ht.
  eexists. split; [reflexivity|]. simpl.
  split; [|split].
  - intros k Hk. rewrite !lookup_fmap.
    destruct (Hp k) as [_ Hpk], (Hr k) as [_ Hrk].
    by rewrite (Hpk Hk), (Hrk Hk).
  - intros Hn. split.
    + intros k Hk. rewrite !lookup_fmap.
      destruct (Hp k) as [Hpk _], (Hr k) as [Hrk _].
      destruct (Hpk Hk) as (lp & -> & Hlp & _ & Hnep).
      destruct (Hrk Hk) as (lr & -> & Hlr & _ & Hner).
      destruct (np_mean_in_unit lp) as (p & Hmp & Hup); [apply Hnep; lia|done|].
      destruct (np_mean_in_unit lr) as (r & Hmr & Hur); [apply Hner; lia|done|].
      exists p, r. simpl. by rewrite Hmp, Hmr.
    + destruct (total_rewards acc) as [|x l]; [simpl in Ht; lia|].
      by eexists.
  - intros Hn. replace (Z.to_nat n) with 0%nat in * by lia. split.
    + intros k Hk. rewrite !lookup_fmap.
      destruct (Hp k) as [Hpk _], (Hr k) as [Hrk _].
      destruct (Hpk Hk) as (lp & -> & _ & Hep & _).
      destruct (Hrk Hk) as (lr & -> & _ & Her & _).
      by rewrite Hep, Her.
    + by destruct (total_rewards acc).
Qed.

Lemma evaluate_agent_report_witness :
  exists rep,
    evaluate_agent 2 Sample.env_5_2 (Sample.agent_of Sample.env_5_2) 3
      (fun i => (i, fun _ => Sample.explore)) [1; 2; 2]
    = Some (Returns rep)
    /\ exists p r, avg_precision rep !! 2 = Some (Num p)
                   /\ avg_recall rep !! 2 = Some (Num r)
                   /\ in_unit p /\ in_unit r.
Proof.
  destruct (evaluate_agent_report Sample.env_5_2
              (Sample.agent_of Sample.env_5_2) 2 3
              (fun i => (i, fun _ => Sample.explore)) [1; 2; 2])
    as (rep & Hrep & _ & Hpos & _).
  - discriminate.
  - intros s. discriminate.
  - simpl. lia.
  - exists rep. split; [exact Hrep|].
    destruct Hpos as [Hk _]; [lia|]. apply Hk.
    apply (bool_decide_unpack _). by vm_compute.
Defined.

End EvaluateTheorems.

Section ObservationWindow.
Import Env.
Implicit Types (env : AmazonEnv) (st : EnvState).

(** The observation forgets what is older than the window: two states of
    the same user whose histories end with the same [N - 1] entries get
    the same observation and the same reward from [step] for the same
    action, whatever came before. *)
Theorem step_observation_forgets env st1 st2 action user pre1 pre2 recent :
  1 <= N env ->
  current_user st1 = Some user -> current_user st2 = Some user ->
  history st1 = pre1 ++ recent -> history st2 = pre2 ++ recent ->
  Z.of_nat (length recent) = N env - 1 ->
  exists st1' st2' state reward done1 done2,
    step env st1 action = Returns (st1', (state, reward, done1))
    /\ step env st2 action = Returns (st2', (state, reward, done2))
    /\ state = window_observation (Z.to_nat (N env)) user
                 (recent ++ [(action, reward)]).
Proof.
  intros HN Hu1 Hu2 Hh1 Hh2 Hlen.
  pose proof (step_observation env st1 action user HN Hu1) as Hs1.
  pose proof (step_observation env st2 action user HN Hu2) as Hs2.
  assert (Hr : step_reward env st2 action = step_reward env st1 action)
    by (unfold step_reward; by rewrite Hu1, Hu2).
  assert (Hwin : forall pre,
    window_observation (Z.to_nat (N env)) user
      ((pre ++ recent) ++ [(action, step_reward env st1 action)])
    = window_observation (Z.to_nat (N env)) user
        (recent ++ [(action, step_reward env st1 action)])).
  { intros pre. unfold window_observation.
    rewrite <- (assoc_L (++)), !length_app. simpl.
    replace (Z.to_nat (N env) `min` (length pre + (length recent + 1)))%nat
      with (length recent + 1)%nat by lia.
    replace (Z.to_nat (N env) `min` (length recent + 1))%nat
      with (length recent + 1)%nat by lia.
    replace (length pre + (length recent + 1) - (length recent + 1))%nat
      with (length pre) by lia.
    replace (length recent + 1 - (length recent + 1))%nat with 0%nat by lia.
    by rewrite drop_app_length, drop_0. }
  unfold step_history in Hs1, Hs2. rewrite Hr in Hs2.
  rewrite Hh1, Hwin in Hs1. rewrite Hh2, Hwin in Hs2.
  eexists _, _, _, _, _, _. split; [exact Hs1|]. split; [exact Hs2|]. done.
Qed.

Lemma step_observation_forgets_witness :
  exists st1' st2' state reward done1 done2,
    step (Sample.make_env 2 10)
      {| current_user := Some 1; history := [(0, 0%Q); (2, 5%Q)] |} 2
    = Returns (st1', (state, reward, done1))
    /\ step (Sample.make_env 2 10)
         {| current_user := Some 1; history := [(2, 5%Q)] |} 2
       = Returns (st2', (state, reward, done2))
    /\ state = window_observation 2 1 ([(2, 5%Q)] ++ [(2, reward)]).
Proof.
  apply (step_observation_forgets (Sample.make_env 2 10)
           {| current_user := Some 1; history := [(0, 0%Q); (2, 5%Q)] |}
           {| current_user := Some 1; history := [(2, 5%Q)] |}
           2 1 [(0, 0%Q)] [] [(2, 5%Q)]); try reflexivity.
  simpl. lia.
Defined.

End ObservationWindow.
